(** * Fire-spread engine of the forest-fire simulator ([fuego.py])

    A shallow embedding of [buscar_vecino] (the fuel locator) and
    [actualizar] (the propagation step) of [fuego.py], together with the
    part of NumPy's two-dimensional arrays they rely on.  Integers are
    [Z], Python floats are IEEE binary64 numbers ([PrimFloat.float]), the
    arithmetic between a Python float and a scalar of the slope array is a
    parameter (with the binary64 and binary32 instances), a raised
    [IndexError] is [None] in the option monad, and the global generator
    behind [random.random()] is an infinite sequence of draws together
    with the number of draws already consumed.

    [direccion_vector] is left out: its result is decided by the values
    the C library's [cos] and [sin] return on binary64 arguments, which
    have no counterpart here. *)

From Stdlib Require Import ZArith Lia.
From Stdlib Require Import Floats.PrimFloat Floats.FloatOps Floats.SpecFloat.
From stdpp Require Import base tactics option list list_numbers.

Set Warnings "-inexact-float".
Open Scope Z_scope.

(** ** Cell states *)

Definition VACIO : Z := 0.
Definition VEGETACION : Z := 1.
Definition FUEGO : Z := 2.
Definition QUEMADO : Z := 3.

(** ** Two-dimensional NumPy arrays

    An array is its shape and its row-major buffer.  [wf] is the invariant
    every NumPy array satisfies: the buffer holds [shape0 * shape1]
    elements. *)

Record ndarray (A : Type) : Type := NdArray {
  shape0 : Z;
  shape1 : Z;
  data : list A
}.
Arguments NdArray {A} _ _ _.
Arguments shape0 {A} _.
Arguments shape1 {A} _.
Arguments data {A} _.

Definition wf {A} (a : ndarray A) : Prop :=
  0 ≤ shape0 a ∧ 0 ≤ shape1 a ∧ Z.of_nat (length (data a)) = shape0 a * shape1 a.

Definition same_shape {A B} (a : ndarray A) (b : ndarray B) : Prop :=
  shape0 a = shape0 b ∧ shape1 a = shape1 b.

(** The coordinates the source accepts after its test
    [0 <= x < shape[1] and 0 <= y < shape[0]]. *)
Definition inb {A} (a : ndarray A) (y x : Z) : Prop :=
  0 ≤ y < shape0 a ∧ 0 ≤ x < shape1 a.

Definition en_rango {A} (a : ndarray A) (nx ny : Z) : bool :=
  (0 <=? nx) && (nx <? shape1 a) && (0 <=? ny) && (ny <? shape0 a).

(** NumPy index normalisation along one axis of extent [n]: a negative
    index counts from the end, anything still outside raises. *)
Definition norm_index (i n : Z) : option Z :=
  let j := if i <? 0 then i + n else i in
  if (0 <=? j) && (j <? n) then Some j else None.

Definition offset {A} (a : ndarray A) (y x : Z) : option nat :=
  j ← norm_index y (shape0 a);
  i ← norm_index x (shape1 a);
  Some (Z.to_nat (j * shape1 a + i)).

(** [a[y, x]] *)
Definition getitem {A} (a : ndarray A) (y x : Z) : option A :=
  k ← offset a y x; data a !! k.

(** [a[y, x] = v] *)
Definition setitem {A} (a : ndarray A) (y x : Z) (v : A) : option (ndarray A) :=
  k ← offset a y x;
  _ ← data a !! k;
  Some (NdArray (shape0 a) (shape1 a) (<[k:=v]> (data a))).

(** [np.full((h, w), v)] *)
Definition full {A} (h w : Z) (v : A) : ndarray A :=
  NdArray h w (replicate (Z.to_nat (h * w)) v).

(** Python's [range(n)] and [range(a, b)]. *)
Definition range (n : Z) : list Z := seqZ 0 n.
Definition range2 (a b : Z) : list Z := seqZ a (b - a).

(** A [for] loop whose body may raise: the state is threaded through the
    items in order and the first error aborts the loop. *)
Fixpoint for_ {S A : Type} (l : list A) (body : A → S → option S) (s : S) : option S :=
  match l with
  | [] => Some s
  | a :: l' => s' ← body a s; for_ l' body s'
  end.

(** The array after a successful in-bounds store. *)
Definition upd {A} (a : ndarray A) (y x : Z) (v : A) : ndarray A :=
  NdArray (shape0 a) (shape1 a) (<[Z.to_nat (y * shape1 a + x) := v]> (data a)).

(** ** The fuel locator: [buscar_vecino]

    A [for] loop whose body may [return]: the body yields [Some (Some r)]
    to return [r], [Some None] to go on with the next item, and [None]
    when it raises. *)

Fixpoint for_ret {A R : Type} (l : list A) (body : A → option (option R))
    : option (option R) :=
  match l with
  | [] => Some None
  | a :: l' =>
      r ← body a;
      match r with
      | Some v => Some (Some v)
      | None => for_ret l' body
      end
  end.

(** The body of the innermost loop, at the offsets [dy] and [dx]. *)
Definition mirar (grilla : ndarray Z) (cx cy dy dx : Z) : option (option (Z * Z)) :=
  let nx := cx + dx in
  let ny := cy + dy in
  if en_rango grilla nx ny then
    c ← getitem grilla ny nx;
    if c =? VEGETACION then Some (Some (nx, ny)) else Some None
  else Some None.

(** The result is [Some (nx, ny)] for the pair the source returns and
    [None] for its [(None, None)]. *)
Definition buscar_vecino (grilla : ndarray Z) (cx cy : Z) (radio : Z)
    : option (option (Z * Z)) :=
  for_ret (range2 1 (radio + 1)) (λ r,
    for_ret (range2 (- r) (r + 1)) (λ dy,
      for_ret (range2 (- r) (r + 1)) (λ dx,
        mirar grilla cx cy dy dx))).

(** The default [radio=3]. *)
Definition radio_por_defecto : Z := 3.

(** ** The propagation step: [actualizar] *)

(** *** The arithmetic of [prob]

    The source writes [0.6 + 0.2 * pend + 0.02 * velocidad] and
    [random.random() < min(prob, 1.0)], where [0.6], [0.2], [1.0], the
    product [0.02 * velocidad] and the draw are Python floats (binary64)
    and [pend] is a scalar of the slope array.  Which arithmetic NumPy
    uses between a Python float and such a scalar depends on the dtype of
    the array and on NumPy's promotion rules, neither of which the source
    fixes: it is a parameter of the model. *)
Record aritmetica : Type := Aritmetica {
  (** the scalars of the slope array *)
  elem : Type;
  (** the scalars the arithmetic yields: the type of [prob] *)
  num : Type;
  (** [c * pend] for a Python float [c] *)
  por : float → elem → num;
  (** [c + x] for a Python float [c] *)
  mas_a : float → num → num;
  (** [x + c] for a Python float [c] *)
  mas : num → float → num;
  (** [c < x] for a Python float [c] *)
  menor : float → num → bool
}.

(** A [float64] slope array: its scalars are Python floats and every
    operation is the binary64 one.  (Under NumPy 1.x a [float32] scalar
    met by a Python float is widened to binary64 first, which is this
    arithmetic on the widened slopes.) *)
Definition binary64 : aritmetica :=
  Aritmetica float float PrimFloat.mul PrimFloat.add PrimFloat.add PrimFloat.ltb.

(** The binary64 number [c] rounded to the nearest binary32 number. *)
Definition a_binary32 (c : float) : spec_float :=
  match Prim2SF c with
  | S754_finite sg m e => binary_round 24 128 sg m e
  | v => v
  end.

(** A [float32] slope array under NumPy 2 (NEP 50): a Python float met by
    a [float32] scalar is rounded to [float32] and the operation is the
    binary32 one. *)
Definition binary32 : aritmetica :=
  Aritmetica spec_float spec_float
    (λ c x, SFmul 24 128 (a_binary32 c) x)
    (λ c x, SFadd 24 128 (a_binary32 c) x)
    (λ x c, SFadd 24 128 x (a_binary32 c))
    (λ c x, SFltb (a_binary32 c) x).

(** The two probability formulas of the source. *)
Definition prob_de (ar : aritmetica) (es_viento : bool) (pend : elem ar)
    (velocidad : float) : num ar :=
  if es_viento then mas ar (mas_a ar 0.6 (por ar 0.2 pend)) (0.02 * velocidad)%float
  else mas ar (mas_a ar 0.3 (por ar 0.1 pend)) (0.01 * velocidad)%float.

(** [u < min(prob, 1.0)]: Python's [min] answers its second argument
    [1.0] when [1.0 < prob] and its first argument [prob] otherwise; the
    draw [u] is then compared with a Python float or with a scalar. *)
Definition bajo_el_tope (ar : aritmetica) (u : float) (prob : num ar) : bool :=
  if menor ar 1 prob then (u <? 1)%float else menor ar u prob.

(** One call of [random.random()] inside the step: the burning source
    cell [(t_y, t_x)], the offset [(t_dy, t_dx)], and the values of the
    source's [pend], [es_viento] and [prob] together with the draw. *)
Record trial (ar : aritmetica) : Type := Trial {
  t_y : Z; t_x : Z; t_dy : Z; t_dx : Z;
  t_pend : elem ar; t_es_viento : bool; t_prob : num ar; t_u : float
}.
Arguments Trial {ar} _ _ _ _ _ _ _ _.
Arguments t_y {ar} _.
Arguments t_x {ar} _.
Arguments t_dy {ar} _.
Arguments t_dx {ar} _.
Arguments t_pend {ar} _.
Arguments t_es_viento {ar} _.
Arguments t_prob {ar} _.
Arguments t_u {ar} _.

(** The comparison [random.random() < min(prob, 1.0)]. *)
Definition exito {ar} (t : trial ar) : bool := bajo_el_tope ar (t_u t) (t_prob t).

Definition destino {ar} (t : trial ar) : Z * Z := (t_y t + t_dy t, t_x t + t_dx t).

(** The state threaded through the loops: the array [nueva], the number
    of draws taken from the generator so far, and the trials performed. *)
Record estado (ar : aritmetica) : Type := Estado {
  nueva : ndarray Z;
  sacados : nat;
  intentos : list (trial ar)
}.
Arguments Estado {ar} _ _ _.
Arguments nueva {ar} _.
Arguments sacados {ar} _.
Arguments intentos {ar} _.

Section paso.
Variables (ar : aritmetica) (grilla : ndarray Z) (viento : Z * Z) (velocidad : float)
          (pendiente : ndarray (elem ar)) (rnd : nat → float).

(** The body of the innermost loop, for the burning cell [(y, x)] and the
    offset [(dy, dx)]. *)
Definition vecino (y x dy dx : Z) (s : estado ar) : option (estado ar) :=
  let nx := x + dx in
  let ny := y + dy in
  if en_rango grilla nx ny then
    c ← getitem grilla ny nx;
    if c =? VEGETACION then
      pend ← getitem pendiente ny nx;
      let '(viento_dx, viento_dy) := viento in
      let es_viento := (dx =? viento_dx) && (dy =? viento_dy) in
      let prob := prob_de ar es_viento pend velocidad in
      let u := rnd (sacados s) in
      let t := Trial y x dy dx pend es_viento prob u in
      if bajo_el_tope ar u prob then
        n ← setitem (nueva s) ny nx FUEGO;
        Some (Estado n (S (sacados s)) (intentos s ++ [t]))
      else Some (Estado (nueva s) (S (sacados s)) (intentos s ++ [t]))
    else Some s
  else Some s.

(** The body of the loop over the cells. *)
Definition celda (y x : Z) (s : estado ar) : option (estado ar) :=
  c ← getitem grilla y x;
  if c =? FUEGO then
    n ← setitem (nueva s) y x QUEMADO;
    for_ [-1; 0; 1] (λ dy, for_ [-1; 0; 1] (λ dx, vecino y x dy dx))
      (Estado n (sacados s) (intentos s))
  else Some s.

(** The whole step, started after [k] draws, with the trials it makes. *)
Definition paso (k : nat) : option (estado ar) :=
  for_ (range (shape0 grilla)) (λ y, for_ (range (shape1 grilla)) (λ x, celda y x))
    (Estado grilla k []).

(** What [actualizar] returns. *)
Definition actualizar (k : nat) : option (ndarray Z) := nueva <$> paso k.
End paso.

(** The driving loop's repeated application: one step per hour, each with
    that hour's wind, the grid replaced by the step's output and the
    generator carried on. *)
Fixpoint simular (ar : aritmetica) (horas : list ((Z * Z) * float))
    (pendiente : ndarray (elem ar)) (rnd : nat → float) (grilla : ndarray Z) (k : nat)
    : option (ndarray Z * nat) :=
  match horas with
  | [] => Some (grilla, k)
  | (viento, velocidad) :: horas' =>
      s ← paso ar grilla viento velocidad pendiente rnd k;
      simular ar horas' pendiente rnd (nueva s) (sacados s)
  end.

(** ** The fuel locator against its description

    The reference definition, written from the description of the search:
    the squares of radius 1 up to the maximum, each scanned row offset
    first, and the first in-bounds fuel cell of that walk. *)

Definition cuadrado (r : Z) : list (Z * Z) :=
  dy ← seqZ (- r) (2 * r + 1); dx ← seqZ (- r) (2 * r + 1); [(dx, dy)].

Definition recorrido (cx cy radio : Z) : list (Z * Z) :=
  r ← seqZ 1 radio; d ← cuadrado r; [(cx + d.1, cy + d.2)].

Definition es_vegetacion (grilla : ndarray Z) (p : Z * Z) : bool :=
  en_rango grilla p.1 p.2 &&
  match getitem grilla p.2 p.1 with
  | Some c => c =? VEGETACION
  | None => false
  end.

Definition buscar_vecino_ref (grilla : ndarray Z) (cx cy radio : Z) : option (Z * Z) :=
  List.find (es_vegetacion grilla) (recorrido cx cy radio).

Definition chebyshev (cx cy nx ny : Z) : Z := Z.max (Z.abs (nx - cx)) (Z.abs (ny - cy)).

(** The first item of a list on which [f] answers. *)
Fixpoint primero {A R : Type} (f : A → option R) (l : list A) : option R :=
  match l with
  | [] => None
  | a :: l' => match f a with Some r => Some r | None => primero f l' end
  end.

(** No in-bounds fuel cell within Chebyshev distance [radio] of the target. *)
Definition sin_vegetacion (grilla : ndarray Z) (cx cy radio : Z) : Prop :=
  ∀ nx ny, inb grilla ny nx → chebyshev cx cy nx ny ≤ radio →
           getitem grilla ny nx ≠ Some VEGETACION.

(** The grid of the locator's example: all [VACIO] but one fuel cell. *)
Definition grilla_7x7 (fy fx : Z) : ndarray Z := upd (full 7 7 VACIO) fy fx VEGETACION.

(** ** The invariant of the propagation step

    The predicates below speak about one run of the step on [grilla]. *)

Section invariante.
Context {ar : aritmetica}.
Variables (grilla : ndarray Z) (viento : Z * Z) (velocidad : float)
          (pendiente : ndarray (elem ar)) (rnd : nat → float).

(** A trial as the source makes them: from a cell burning in the input,
    at one of the nine offsets, against an in-bounds cell that is fuel in
    the input, with the probability of the matching formula. *)
Definition valido (t : trial ar) : Prop :=
  inb grilla (t_y t) (t_x t) ∧
  getitem grilla (t_y t) (t_x t) = Some FUEGO ∧
  t_dy t ∈ [-1; 0; 1] ∧ t_dx t ∈ [-1; 0; 1] ∧
  inb grilla (t_y t + t_dy t) (t_x t + t_dx t) ∧
  getitem grilla (t_y t + t_dy t) (t_x t + t_dx t) = Some VEGETACION ∧
  getitem pendiente (t_y t + t_dy t) (t_x t + t_dx t) = Some (t_pend t) ∧
  t_es_viento t = (t_dx t =? viento.1) && (t_dy t =? viento.2) ∧
  t_prob t = prob_de ar (t_es_viento t) (t_pend t) velocidad ∧
  ∃ i, t_u t = rnd i.

Definition buena (s : estado ar) : Prop :=
  shape0 (nueva s) = shape0 grilla ∧
  shape1 (nueva s) = shape1 grilla ∧
  wf (nueva s) ∧
  Forall valido (intentos s) ∧
  ∀ t, t ∈ intentos s → exito t = true →
    getitem (nueva s) (t_y t + t_dy t) (t_x t + t_dx t) = Some FUEGO.

(** How the cell [(y, x)] may differ between a state and a later one. *)
Definition cambio (s s' : estado ar) (y x : Z) : Prop :=
  getitem (nueva s') y x = getitem (nueva s) y x
  ∨ (getitem grilla y x = Some FUEGO ∧ getitem (nueva s') y x = Some QUEMADO)
  ∨ (getitem grilla y x = Some VEGETACION ∧ getitem (nueva s') y x = Some FUEGO ∧
     ∃ t, t ∈ intentos s' ∧ destino t = (y, x) ∧ exito t = true).

Definition ext (s s' : estado ar) : Prop :=
  (∃ l, intentos s' = intentos s ++ l) ∧
  ∀ y x, inb grilla y x → cambio s s' y x.

(** The offset [(dy, dx)] of the burning cell [(y, x)] has been tried. *)
Definition hecho_vecino (y x dy dx : Z) (s : estado ar) : Prop :=
  inb grilla (y + dy) (x + dx) →
  getitem grilla (y + dy) (x + dx) = Some VEGETACION →
  ∃ t, t ∈ intentos s ∧ t_y t = y ∧ t_x t = x ∧ t_dy t = dy ∧ t_dx t = dx.

(** The cell [(y, x)] has been visited. *)
Definition hecho_celda (y x : Z) (s : estado ar) : Prop :=
  inb grilla y x → getitem grilla y x = Some FUEGO →
  getitem (nueva s) y x = Some QUEMADO ∧
  ∀ dy dx, dy ∈ [-1; 0; 1] → dx ∈ [-1; 0; 1] → hecho_vecino y x dy dx s.
End invariante.

(** ** The driving loop of [main.py]

    The ignition block of the hourly loop, for a start point [(cx, cy)]
    that is not [None]: the start cell is lit when it holds fuel, otherwise
    the locator is asked for a fuel cell within radius 3 and that one is
    lit, if any.  The indexing [grilla[cy, cx]] is not guarded. *)
Definition encender (grilla : ndarray Z) (cx cy : Z) : option (ndarray Z) :=
  c ← getitem grilla cy cx;
  if c =? VEGETACION then setitem grilla cy cx FUEGO
  else
    r ← buscar_vecino grilla cx cy 3;
    match r with
    | Some (nx, ny) => setitem grilla ny nx FUEGO
    | None => Some grilla
    end.

(** One turn of the hourly loop, rendering left aside: the ignition block
    when a start point is pending ([inicio], the source's [cx, cy] or
    [None]), then the propagation step. *)
Definition hora (ar : aritmetica) (grilla : ndarray Z) (inicio : option (Z * Z))
    (viento : Z * Z) (velocidad : float) (pendiente : ndarray (elem ar))
    (rnd : nat → float) (k : nat) : option (estado ar) :=
  g ← match inicio with
      | Some (cx, cy) => encender grilla cx cy
      | None => Some grilla
      end;
  paso ar g viento velocidad pendiente rnd k.

(** The hourly loop over the hours given, each with its pending start
    point (from the prompt in the first hour, from a mouse click later),
    its wind vector and its wind speed. *)
Fixpoint simulacion (ar : aritmetica)
    (horas : list (option (Z * Z) * (Z * Z) * float))
    (pendiente : ndarray (elem ar)) (rnd : nat → float) (grilla : ndarray Z) (k : nat)
    : option (ndarray Z * nat) :=
  match horas with
  | [] => Some (grilla, k)
  | (inicio, viento, velocidad) :: horas' =>
      s ← hora ar grilla inicio viento velocidad pendiente rnd k;
      simulacion ar horas' pendiente rnd (nueva s) (sacados s)
  end.

(** [g'] is [g] with the cell [(y, x)] set to [v] and nothing else touched. *)
Definition solo_cambia (g g' : ndarray Z) (y x v : Z) : Prop :=
  wf g' ∧ same_shape g' g ∧
  getitem g' y x = Some v ∧
  ∀ y' x', inb g y' x' → (y', x') ≠ (y, x) → getitem g' y' x' = getitem g y' x'.

(** Where NumPy looks for the index [i] along an axis of extent [n]. *)
Definition envuelto (i n : Z) : Z := if i <? 0 then i + n else i.

(** The states a cell holding [a] may hold later in a simulation. *)
Definition alcanza (a b : Z) : Prop :=
  b = a ∨ (a = VEGETACION ∧ (b = FUEGO ∨ b = QUEMADO)) ∨ (a = FUEGO ∧ b = QUEMADO).

(** [a == n], elementwise. *)
Definition igual_a (a : ndarray Z) (n : Z) : ndarray bool :=
  NdArray (shape0 a) (shape1 a) ((λ c, c =? n) <$> data a).

(** [grilla[mascara] = v] for a boolean mask, which must have the shape
    of the array. *)
Definition asignar_donde (grilla : ndarray Z) (mascara : ndarray bool) (v : Z)
    : option (ndarray Z) :=
  if decide (shape0 mascara = shape0 grilla ∧ shape1 mascara = shape1 grilla) then
    Some (NdArray (shape0 grilla) (shape1 grilla)
            (zip_with (λ c (m : bool), if m then v else c) (data grilla) (data mascara)))
  else None.

(** [generar_grilla] of [main.py], from the mask [cargar_savi] returns:
    [np.full] refuses a negative size. *)
Definition generar_grilla (vegetacion : ndarray Z) (grid_size : Z) : option (ndarray Z) :=
  if grid_size <? 0 then None
  else
    let grilla := full grid_size grid_size VACIO in
    asignar_donde grilla (igual_a vegetacion 1) VEGETACION.

(** The trials of a run started after [k] draws took the draws [k],
    [k + 1], ... of the generator in order, one each. *)
Definition contado {ar} (rnd : nat → float) (k : nat) (s : estado ar) : Prop :=
  sacados s = (k + length (intentos s))%nat ∧
  ∀ i t, intentos s !! i = Some t → t_u t = rnd (k + i)%nat.

(** The place of a trial in the scan of the step: the loops run over the
    rows [y], then the columns [x], then the offsets [dy], then [dx], each
    ascending. *)
Definition antes_que (y1 x1 dy1 dx1 y2 x2 dy2 dx2 : Z) : Prop :=
  y1 < y2 ∨ (y1 = y2 ∧ (x1 < x2 ∨ (x1 = x2 ∧ (dy1 < dy2 ∨ (dy1 = dy2 ∧ dx1 < dx2))))).

(** [t1] is met before [t2] by the scan. *)
Definition orden_de_barrido {ar} (t1 t2 : trial ar) : Prop :=
  antes_que (t_y t1) (t_x t1) (t_dy t1) (t_dx t1) (t_y t2) (t_x t2) (t_dy t2) (t_dx t2).

(** The trials made so far are listed as the scan met them, and all were
    met before the position [(y, x, dy, dx)]. *)
Definition barrido {ar} (y x dy dx : Z) (s : estado ar) : Prop :=
  (∀ i j t1 t2, (i < j)%nat → intentos s !! i = Some t1 → intentos s !! j = Some t2 →
                orden_de_barrido t1 t2) ∧
  ∀ t, t ∈ intentos s → antes_que (t_y t) (t_x t) (t_dy t) (t_dx t) y x dy dx.


(** ** Sample inputs *)

(** A 3x3 grid whose centre burns, with fuel around it. *)
Definition grilla_ej : ndarray Z := NdArray 3 3 [1; 1; 0; 1; 2; 1; 3; 1; 0].

(** A 3x3 grid with fuel in one corner and fire in the opposite one. *)
Definition grilla_lejos : ndarray Z := NdArray 3 3 [1; 0; 0; 0; 0; 0; 0; 0; 2].

(** A 2x2 grid with nothing left to burn. *)
Definition grilla_apagada : ndarray Z := NdArray 2 2 [0; 3; 3; 0].

(** A 3x3 grid with fuel at the centre, to its right and below, and none
    above or to its left. *)
Definition grilla_centro : ndarray Z := NdArray 3 3 [0; 0; 0; 0; 1; 1; 1; 1; 1].

(** A 3x3 grid of fuel and bare ground, nothing lit. *)
Definition grilla_verde : ndarray Z := NdArray 3 3 [1; 1; 0; 0; 0; 1; 1; 0; 0].

(** A 5x5 grid with fuel only in the last column. *)
Definition grilla_borde : ndarray Z :=
  NdArray 5 5 [0; 0; 0; 0; 1; 0; 0; 0; 0; 1; 0; 0; 0; 0; 1; 0; 0; 0; 0; 1; 0; 0; 0; 0; 1].

Definition pendiente_5x5 : ndarray float := full 5 5 0.5%float.

(** A burning cell with fuel to its right, with a [float32] slope field. *)
Definition grilla_1x3 : ndarray Z := NdArray 1 3 [2; 1; 0].
Definition pendiente_1x3 : ndarray float := full 1 3 0.75%float.
Definition pendiente32_1x3 : ndarray spec_float := full 1 3 (a_binary32 0.75).

(** A 2x2 vegetation mask. *)
Definition mascara_ej : ndarray Z := NdArray 2 2 [1; 0; 0; 1].

(** A single fuel cell. *)
Definition grilla_1x1 : ndarray Z := NdArray 1 1 [1].

Definition pendiente_ej : ndarray float := full 3 3 0.5%float.
Definition pendiente_2x2 : ndarray float := full 2 2 0.5%float.

Definition rnd_ej (i : nat) : float := if Nat.even i then 0.25%float else 0.95%float.

(** The four states are distinct numbers. *)
Ltac estados := unfold VACIO, VEGETACION, FUEGO, QUEMADO in *; congruence.

(** Side conditions on concrete grids. *)
Ltac en_grilla := unfold inb; simpl; lia.
Ltac calcula := vm_compute; first [reflexivity | let H := fresh in intros H; discriminate H].

(** ** The model at work *)

Example getitem_ej :
  getitem grilla_ej 1 1 = Some FUEGO ∧ getitem grilla_ej (-1) (-1) = Some VACIO ∧
  getitem grilla_ej 3 0 = None.
Proof. by vm_compute. Qed.

Example recorrido_radio_1 :
  recorrido 0 0 1
  = [(-1, -1); (0, -1); (1, -1); (-1, 0); (0, 0); (1, 0); (-1, 1); (0, 1); (1, 1)].
Proof. by vm_compute. Qed.

(** One step from [grilla_ej] with an east wind: five trials, the draws
    [0.25] ignite and the draws [0.95] do not. *)
Example actualizar_grilla_ej :
  actualizar binary64 grilla_ej (1, 0) 10 pendiente_ej rnd_ej 0
  = Some (NdArray 3 3 [2; 1; 0; 2; 3; 1; 3; 2; 0]) ∧
  (sacados <$> paso binary64 grilla_ej (1, 0) 10 pendiente_ej rnd_ej 0) = Some 5%nat.
Proof. by vm_compute. Qed.

(** The same step on the same numbers in the two arithmetics: the draw
    [0.4749999999] lies below [0.3 + 0.1 * 0.75 + 0.01 * 10] computed in
    binary64 but, once rounded to binary32, not below it computed in
    binary32. *)
Example actualizar_segun_aritmetica :
  actualizar binary64 grilla_1x3 (0, 1) 10 pendiente_1x3 (λ _, 0.4749999999%float) 0
  = Some (NdArray 1 3 [3; 2; 0]) ∧
  actualizar binary32 grilla_1x3 (0, 1) 10 pendiente32_1x3 (λ _, 0.4749999999%float) 0
  = Some (NdArray 1 3 [3; 1; 0]).
Proof. by vm_compute. Qed.

(** ** Facts about arrays *)

Section arrays.
Context {A : Type}.
Implicit Types (a : ndarray A) (y x : Z) (v : A).

Lemma en_rango_inb a nx ny : en_rango a nx ny = true ↔ inb a ny nx.
Proof. unfold en_rango, inb. rewrite !andb_true_iff. lia. Qed.

Lemma norm_index_inb i n : 0 ≤ i < n → norm_index i n = Some i.
Proof.
  intros H. unfold norm_index.
  destruct (Z.ltb_spec i 0); [lia|].
  destruct (Z.leb_spec 0 i); [|lia].
  destruct (Z.ltb_spec i n); [done|lia].
Qed.

Lemma offset_inb a y x :
  inb a y x → offset a y x = Some (Z.to_nat (y * shape1 a + x)).
Proof.
  intros [Hy Hx]. unfold offset.
  rewrite (norm_index_inb y), (norm_index_inb x) by done. done.
Qed.

Lemma offset_lt a y x :
  wf a → inb a y x → (Z.to_nat (y * shape1 a + x) < length (data a))%nat.
Proof. intros (H0 & H1 & Hl) [Hy Hx]. nia. Qed.

Lemma offset_inj a y x y' x' :
  inb a y x → inb a y' x' →
  Z.to_nat (y * shape1 a + x) = Z.to_nat (y' * shape1 a + x') → y = y' ∧ x = x'.
Proof.
  intros [Hy Hx] [Hy' Hx'] E.
  assert (y * shape1 a + x = y' * shape1 a + x') as E' by nia.
  assert (y = y') by nia. subst. lia.
Qed.

Lemma getitem_inb a y x : wf a → inb a y x → is_Some (getitem a y x).
Proof.
  intros Hwf Hin. unfold getitem. rewrite offset_inb by done. simpl.
  apply lookup_lt_is_Some. by apply offset_lt.
Qed.

Lemma setitem_inb a y x v : wf a → inb a y x → setitem a y x v = Some (upd a y x v).
Proof.
  intros Hwf Hin. unfold setitem. rewrite offset_inb by done. simpl.
  destruct (lookup_lt_is_Some_2 (data a) _ (offset_lt a y x Hwf Hin)) as [w ->].
  done.
Qed.

Lemma wf_upd a y x v : wf a → wf (upd a y x v).
Proof. unfold wf, upd. simpl. by rewrite length_insert. Qed.

Lemma inb_upd a y x v y' x' : inb (upd a y x v) y' x' ↔ inb a y' x'.
Proof. done. Qed.

Lemma getitem_upd_eq a y x v : wf a → inb a y x → getitem (upd a y x v) y x = Some v.
Proof.
  intros Hwf Hin. unfold getitem. rewrite offset_inb by done. simpl.
  apply list_lookup_insert_eq. by apply offset_lt.
Qed.

Lemma getitem_upd_ne a y x v y' x' :
  inb a y x → inb a y' x' → (y, x) ≠ (y', x') →
  getitem (upd a y x v) y' x' = getitem a y' x'.
Proof.
  intros Hin Hin' Hne. unfold getitem. rewrite !offset_inb by done. simpl.
  apply list_lookup_insert_ne. intros E.
  destruct (offset_inj a y x y' x' Hin Hin' E). congruence.
Qed.
End arrays.

(** ** Reasoning about loops *)

(** A loop whose body leaves the state alone leaves the state alone. *)
Lemma for_id {S A : Type} (l : list A) (body : A → S → option S) (s : S) :
  (∀ a, a ∈ l → body a s = Some s) → for_ l body s = Some s.
Proof.
  induction l as [|a l IH]; intros H; [done|]. simpl.
  rewrite H by apply list_elem_of_here. simpl.
  apply IH. intros b Hb. apply H. by apply list_elem_of_further.
Qed.

(** The loop rule: [Base] is kept by every iteration, every iteration
    extends the state along the preorder [ext], and what the iteration for
    [a] establishes, [Prog a], survives extension. *)
Section for_hoare.
Context {S A : Type} (Base : S → Prop) (ext : S → S → Prop) (Prog : A → S → Prop).
Hypothesis ext_refl : ∀ s, ext s s.
Hypothesis ext_trans : ∀ s1 s2 s3, ext s1 s2 → ext s2 s3 → ext s1 s3.
Hypothesis Prog_ext : ∀ a s s', Prog a s → ext s s' → Prog a s'.

Lemma for_hoare (l : list A) (body : A → S → option S) :
  (∀ a s, a ∈ l → Base s →
     ∃ s', body a s = Some s' ∧ Base s' ∧ ext s s' ∧ Prog a s') →
  ∀ s, Base s →
    ∃ s', for_ l body s = Some s' ∧ Base s' ∧ ext s s' ∧ ∀ a, a ∈ l → Prog a s'.
Proof.
  induction l as [|a l IH]; intros Hbody s Hs; simpl.
  - exists s. split_and!; [done..|]. intros a Ha. by apply elem_of_nil in Ha.
  - destruct (Hbody a s) as (s1 & -> & Hs1 & He1 & Hp1); [apply list_elem_of_here|done|].
    simpl.
    destruct (IH (λ b t Hb, Hbody b t (list_elem_of_further _ _ _ Hb)) s1 Hs1)
      as (s2 & -> & Hs2 & He2 & Hp2).
    exists s2. split_and!; [done|done|by eapply ext_trans|].
    intros b [->|Hb]%elem_of_cons; [by eapply Prog_ext|by apply Hp2].
Qed.
End for_hoare.

(** ** The propagation step keeps its invariant *)

Section paso_correcto.
Variables (ar : aritmetica) (grilla : ndarray Z) (viento : Z * Z) (velocidad : float)
          (pendiente : ndarray (elem ar)) (rnd : nat → float).
Hypothesis grilla_wf : wf grilla.
Hypothesis pendiente_wf : wf pendiente.
Hypothesis misma_forma : same_shape grilla pendiente.

Local Abbreviation buena := (buena grilla viento velocidad pendiente rnd).
Local Abbreviation ext := (ext (ar:=ar) grilla).
Local Abbreviation hecho_vecino := (hecho_vecino (ar:=ar) grilla).
Local Abbreviation hecho_celda := (hecho_celda (ar:=ar) grilla).

Lemma ext_refl s : ext s s.
Proof. split; [exists []; by rewrite app_nil_r|]. intros y x _. by left. Qed.

Lemma ext_intentos s s' t : ext s s' → t ∈ intentos s → t ∈ intentos s'.
Proof. intros [[l ->] _] Ht. apply elem_of_app. by left. Qed.

Lemma ext_trans s1 s2 s3 : ext s1 s2 → ext s2 s3 → ext s1 s3.
Proof.
  intros H12 H23. split.
  - destruct H12 as [[l1 E1] _], H23 as [[l2 E2] _].
    exists (l1 ++ l2). by rewrite E2, E1, app_assoc.
  - intros y x Hin.
    destruct (proj2 H23 y x Hin) as [E|[?|?]]; [|by right; left|by right; right].
    destruct (proj2 H12 y x Hin) as [E'|[[? ?]|(? & ? & t & Ht & ? & ?)]].
    + left. congruence.
    + right; left. split; congruence.
    + right; right. split_and!; [done|congruence|].
      exists t. split_and!; [by eapply ext_intentos|done..].
Qed.

(** A burning cell, once marked burned, stays so. *)
Lemma quemado_ext s s' y x :
  inb grilla y x → getitem grilla y x = Some FUEGO →
  getitem (nueva s) y x = Some QUEMADO → ext s s' →
  getitem (nueva s') y x = Some QUEMADO.
Proof.
  intros Hin Hg Hq [_ Hc].
  destruct (Hc y x Hin) as [E|[[_ ?]|[? _]]]; [congruence|done|estados].
Qed.

Lemma hecho_vecino_ext y x dy dx s s' :
  hecho_vecino y x dy dx s → ext s s' → hecho_vecino y x dy dx s'.
Proof.
  intros H He Hin Hg. destruct (H Hin Hg) as (t & Ht & ?).
  exists t. split; [by eapply ext_intentos|done].
Qed.

Lemma hecho_celda_ext y x s s' :
  hecho_celda y x s → ext s s' → hecho_celda y x s'.
Proof.
  intros H He Hin Hg. destruct (H Hin Hg) as [Hq Hv]. split.
  - by eapply quemado_ext.
  - intros dy dx Hdy Hdx. eapply hecho_vecino_ext; [by apply Hv|done].
Qed.

Lemma inb_nueva s y x : buena s → inb (nueva s) y x ↔ inb grilla y x.
Proof. intros (E0 & E1 & _). unfold inb. by rewrite E0, E1. Qed.

Lemma inb_pendiente y x : inb grilla y x → inb pendiente y x.
Proof. destruct misma_forma as [E0 E1]. unfold inb. by rewrite E0, E1. Qed.

(** One offset of a burning cell. *)
Lemma vecino_spec y x dy dx s :
  inb grilla y x → getitem grilla y x = Some FUEGO →
  dy ∈ [-1; 0; 1] → dx ∈ [-1; 0; 1] → buena s →
  ∃ s', vecino ar grilla viento velocidad pendiente rnd y x dy dx s = Some s' ∧
        buena s' ∧ ext s s' ∧ hecho_vecino y x dy dx s'.
Proof.
  intros Hin Hg Hdy Hdx Hs. unfold vecino.
  destruct (en_rango grilla (x + dx) (y + dy)) eqn:Er; cycle 1.
  { exists s. split_and!; [done|done|apply ext_refl|].
    intros Hin' _. apply en_rango_inb in Hin'. congruence. }
  apply en_rango_inb in Er.
  destruct (getitem_inb grilla _ _ grilla_wf Er) as [c Hc]. rewrite Hc. simpl.
  destruct (Z.eqb_spec c VEGETACION) as [->|Hne]; cycle 1.
  { exists s. split_and!; [done|done|apply ext_refl|].
    intros _ Hv. congruence. }
  destruct (getitem_inb pendiente _ _ pendiente_wf (inb_pendiente _ _ Er))
    as [pend Hp].
  rewrite Hp. simpl. destruct viento as [viento_dx viento_dy] eqn:Ev.
  set (t := Trial y x dy dx pend _ _ _).
  assert (valido grilla (viento_dx, viento_dy) velocidad pendiente rnd t) as Ht.
  { unfold valido, t. simpl. split_and!; try done. by eexists. }
  destruct Hs as (E0 & E1 & Hwn & Hval & Hex).
  assert (inb (nueva s) (y + dy) (x + dx)) as Ern.
  { unfold inb. by rewrite E0, E1. }
  pose proof (Hex' := Hex).
  destruct (bajo_el_tope ar (rnd (sacados s)) _) eqn:Eu.
  - rewrite setitem_inb by done. simpl. eexists. split; [done|].
    split_and!; simpl.
    + split_and!; simpl; [done|done|by apply wf_upd| |].
      * apply Forall_app. split; [done|]. by apply Forall_singleton.
      * intros t' Ht' Hx'.
        destruct (decide ((y + dy, x + dx) = (t_y t' + t_dy t', t_x t' + t_dx t')))
          as [E|E].
        { injection E as <- <-. by apply getitem_upd_eq. }
        rewrite getitem_upd_ne; [|done| |done].
        { apply elem_of_app in Ht' as [Ht'|Ht'%list_elem_of_singleton];
            [by apply Hex|]. subst t'. by destruct E. }
        apply elem_of_app in Ht' as [Ht'|Ht'%list_elem_of_singleton].
        { rewrite Forall_forall in Hval. destruct (Hval _ Ht') as (_&_&_&_&Hd&_).
          unfold inb. by rewrite E0, E1. }
        subst t'. by destruct E.
    + split; simpl; [by eexists|]. intros y' x' Hin'.
      destruct (decide ((y + dy, x + dx) = (y', x'))) as [E|E].
      * injection E as <- <-. right; right.
        split_and!; [done|by apply getitem_upd_eq|].
        exists t. split_and!; [|done|done].
        apply elem_of_app. right. by apply list_elem_of_singleton.
      * left. apply getitem_upd_ne; [done| |done]. unfold inb. by rewrite E0, E1.
    + intros _ _. exists t. split; [|done].
      apply elem_of_app. right. by apply list_elem_of_singleton.
  - eexists. split; [done|]. split_and!; simpl.
    + split_and!; simpl; [done|done|done| |].
      * apply Forall_app. split; [done|]. by apply Forall_singleton.
      * intros t' [Ht'|Ht'%list_elem_of_singleton]%elem_of_app Hx';
          [by apply Hex|].
        subst t'. unfold exito in Hx'. simpl in Hx'. congruence.
    + split; simpl; [by eexists|]. intros y' x' _. by left.
    + intros _ _. exists t. split; [|done].
      apply elem_of_app. right. by apply list_elem_of_singleton.
Qed.

(** The nine offsets of a burning cell. *)
Lemma vecinos_spec y x s :
  inb grilla y x → getitem grilla y x = Some FUEGO → buena s →
  ∃ s', for_ [-1; 0; 1] (λ dy, for_ [-1; 0; 1] (λ dx,
          vecino ar grilla viento velocidad pendiente rnd y x dy dx)) s = Some s' ∧
        buena s' ∧ ext s s' ∧
        ∀ dy dx, dy ∈ [-1; 0; 1] → dx ∈ [-1; 0; 1] → hecho_vecino y x dy dx s'.
Proof.
  intros Hin Hg Hs.
  destruct (for_hoare buena ext
              (λ dy s', ∀ dx, dx ∈ [-1; 0; 1] → hecho_vecino y x dy dx s')
              ext_refl ext_trans) with (l := [-1; 0; 1]) (s := s)
              (body := λ dy, for_ [-1; 0; 1] (λ dx,
                 vecino ar grilla viento velocidad pendiente rnd y x dy dx))
    as (s' & E & Hs' & He & Hp); [| |done|].
  - intros dy s1 s2 H He dx Hdx. eapply hecho_vecino_ext; [by apply H|done].
  - intros dy s1 Hdy Hs1.
    apply (for_hoare buena ext (λ dx s', hecho_vecino y x dy dx s')
             ext_refl ext_trans); [|by intros; apply vecino_spec|done].
    intros dx s2 s3 H He. by eapply hecho_vecino_ext.
  - exists s'. split_and!; [done..|]. intros dy dx Hdy Hdx. by apply Hp.
Qed.

(** One cell of the scan. *)
Lemma celda_spec y x s :
  inb grilla y x → buena s →
  ∃ s', celda ar grilla viento velocidad pendiente rnd y x s = Some s' ∧
        buena s' ∧ ext s s' ∧ hecho_celda y x s'.
Proof.
  intros Hin Hs. unfold celda.
  destruct (getitem_inb grilla _ _ grilla_wf Hin) as [c Hc]. rewrite Hc. cbn -[for_].
  destruct (Z.eqb_spec c FUEGO) as [->|Hne]; cycle 1.
  { exists s. split_and!; [done|done|apply ext_refl|]. intros _ ?. congruence. }
  pose proof (Hs' := Hs). destruct Hs' as (E0 & E1 & Hwn & Hval & Hex).
  assert (inb (nueva s) y x) as Hin' by by apply inb_nueva.
  rewrite setitem_inb by done. cbn -[for_].
  set (s1 := Estado (upd (nueva s) y x QUEMADO) (sacados s) (intentos s)).
  assert (buena s1) as Hs1.
  { split_and!; simpl; [done|done|by apply wf_upd|done|].
    intros t Ht Hx. rewrite Forall_forall in Hval.
    destruct (Hval _ Ht) as (_ & _ & _ & _ & Hd & Hv & _).
    rewrite getitem_upd_ne; [by apply Hex|done|by apply inb_nueva|].
    intros [= -> ->]. estados. }
  assert (ext s s1) as He1.
  { split; simpl; [exists []; by rewrite app_nil_r|]. intros y' x' Hi.
    destruct (decide ((y, x) = (y', x'))) as [[= <- <-]|Hn].
    - right; left. split; [done|]. by apply getitem_upd_eq.
    - left. apply getitem_upd_ne; [done|by apply inb_nueva|done]. }
  destruct (vecinos_spec y x s1 Hin Hc Hs1) as (s2 & -> & Hs2 & He2 & Hp).
  exists s2. split_and!; [done|done|by eapply ext_trans|].
  intros _ _. split; [|done].
  eapply quemado_ext; [done|done| |done]. simpl. by apply getitem_upd_eq.
Qed.

Lemma paso_desde s :
  buena s →
  ∃ s', for_ (range (shape0 grilla)) (λ y, for_ (range (shape1 grilla)) (λ x,
          celda ar grilla viento velocidad pendiente rnd y x)) s = Some s' ∧
        buena s' ∧ ext s s' ∧ ∀ y x, hecho_celda y x s'.
Proof.
  intros Hs.
  destruct (for_hoare buena ext
              (λ y s', ∀ x, hecho_celda y x s') ext_refl ext_trans)
    with (l := range (shape0 grilla)) (s := s)
         (body := λ y, for_ (range (shape1 grilla)) (λ x,
            celda ar grilla viento velocidad pendiente rnd y x))
    as (s' & E & Hs' & He & Hp); [| |done|].
  - intros y s1 s2 H He x. by eapply hecho_celda_ext.
  - intros y s1 Hy Hs1. apply elem_of_seqZ in Hy.
    destruct (for_hoare buena ext (λ x s', hecho_celda y x s') ext_refl ext_trans)
      with (l := range (shape1 grilla)) (s := s1)
           (body := λ x, celda ar grilla viento velocidad pendiente rnd y x)
      as (s2 & E & Hs2 & He & Hp); [| |done|].
    + intros x s2 s3 H He. by eapply hecho_celda_ext.
    + intros x s2 Hx Hs2. apply elem_of_seqZ in Hx.
      apply celda_spec; [|done]. unfold inb. lia.
    + exists s2. split_and!; [done..|]. intros x Hin. apply Hp; [|done].
      apply elem_of_seqZ. destruct Hin. lia.
  - exists s'. split_and!; [done..|]. intros y x Hin. apply Hp; [|done].
    apply elem_of_seqZ. destruct Hin. lia.
Qed.

Lemma buena_inicial k : buena (Estado grilla k []).
Proof.
  split_and!; simpl; [done|done|done|by apply Forall_nil|].
  intros t Ht. by apply elem_of_nil in Ht.
Qed.

(** The step returns, and this is what it returns. *)
Lemma paso_spec k :
  ∃ s, paso ar grilla viento velocidad pendiente rnd k = Some s ∧
       buena s ∧ ext (Estado grilla k []) s ∧ ∀ y x, hecho_celda y x s.
Proof. apply paso_desde, buena_inicial. Qed.
End paso_correcto.

(** Shared consequences of the invariant. *)

Lemma valido_offset ar grilla viento velocidad
    (pendiente : ndarray (elem ar)) rnd t :
  valido grilla viento velocidad pendiente rnd t → (t_dy t, t_dx t) ≠ (0, 0).
Proof.
  intros (_ & Hf & _ & _ & _ & Hv & _) [= Ey Ex].
  rewrite Ey, Ex, !Z.add_0_r in Hv. estados.
Qed.

Lemma celda_de_data {A} (a : ndarray A) y x c :
  getitem a y x = Some c → c ∈ data a.
Proof.
  unfold getitem. destruct (offset a y x) as [k|]; [simpl|done].
  intros H. apply list_elem_of_lookup. by exists k.
Qed.

(** A cell that is not burning is skipped by the scan. *)
Lemma celda_no_fuego ar grilla viento velocidad
    (pendiente : ndarray (elem ar)) rnd y x s c :
  getitem grilla y x = Some c → c ≠ FUEGO →
  celda ar grilla viento velocidad pendiente rnd y x s = Some s.
Proof.
  intros Hc Hne. unfold celda. rewrite Hc. cbn -[for_].
  by destruct (Z.eqb_spec c FUEGO).
Qed.

(** Without a burning cell the step makes no draw and no store. *)
Lemma paso_sin_fuego ar grilla viento velocidad pendiente rnd k :
  wf grilla →
  Forall (λ c, c = VACIO ∨ c = QUEMADO) (data grilla) →
  paso ar grilla viento velocidad pendiente rnd k = Some (Estado grilla k []).
Proof.
  intros Hwf Hall. unfold paso.
  apply for_id. intros y Hy%elem_of_seqZ.
  apply for_id. intros x Hx%elem_of_seqZ.
  assert (inb grilla y x) as Hin by (unfold inb; lia).
  destruct (getitem_inb grilla y x Hwf Hin) as [c Hc].
  eapply celda_no_fuego; [done|].
  rewrite Forall_forall in Hall.
  destruct (Hall c (celda_de_data _ _ _ _ Hc)); estados.
Qed.

Lemma for_ret_primero {A R} (l : list A) (body : A → option (option R)) f :
  (∀ a, a ∈ l → body a = Some (f a)) → for_ret l body = Some (primero f l).
Proof.
  induction l as [|a l IH]; intros H; [done|]. simpl.
  rewrite H by apply list_elem_of_here. simpl.
  destruct (f a); [done|]. apply IH. intros b Hb. apply H. by apply list_elem_of_further.
Qed.

Lemma primero_app {A R} (f : A → option R) l1 l2 :
  primero f (l1 ++ l2) = match primero f l1 with Some r => Some r | None => primero f l2 end.
Proof. induction l1 as [|a l1 IH]; [done|]. simpl. by destruct (f a). Qed.

Lemma primero_bind {A B R} (f : B → option R) (g : A → list B) l :
  primero f (l ≫= g) = primero (λ a, primero f (g a)) l.
Proof.
  induction l as [|a l IH]; [done|].
  change ((a :: l) ≫= g) with (g a ++ (l ≫= g)).
  rewrite primero_app, IH. done.
Qed.

Lemma primero_ext {A R} (f g : A → option R) l :
  (∀ a, f a = g a) → primero f l = primero g l.
Proof. intros H. induction l as [|a l IH]; [done|]. simpl. by rewrite H, IH. Qed.

Lemma find_primero {A} (p : A → bool) l :
  List.find p l = primero (λ a, if p a then Some a else None) l.
Proof. induction l as [|a l IH]; [done|]. simpl. by destruct (p a). Qed.

Lemma mirar_spec grilla cx cy dy dx :
  wf grilla →
  mirar grilla cx cy dy dx
  = Some (if es_vegetacion grilla (cx + dx, cy + dy) then Some (cx + dx, cy + dy) else None).
Proof.
  intros Hwf. unfold mirar, es_vegetacion. simpl.
  destruct (en_rango grilla (cx + dx) (cy + dy)) eqn:Er; [|done].
  apply en_rango_inb in Er. destruct (getitem_inb grilla _ _ Hwf Er) as [c ->].
  simpl. by destruct (c =? VEGETACION).
Qed.

Lemma buscar_vecino_ref_eq grilla cx cy radio :
  wf grilla →
  buscar_vecino grilla cx cy radio = Some (buscar_vecino_ref grilla cx cy radio).
Proof.
  intros Hwf. unfold buscar_vecino, buscar_vecino_ref, recorrido, cuadrado, range2.
  rewrite find_primero, primero_bind.
  replace (radio + 1 - 1) with radio by lia.
  apply for_ret_primero. intros r _.
  rewrite !primero_bind.
  replace (r + 1 - - r) with (2 * r + 1) by lia.
  apply for_ret_primero. intros dy _.
  rewrite !primero_bind.
  apply for_ret_primero. intros dx _.
  rewrite mirar_spec by done. simpl.
  by destruct (es_vegetacion grilla (cx + dx, cy + dy)).
Qed.

Lemma find_None_iff {A} (p : A → bool) l :
  List.find p l = None ↔ ∀ a, a ∈ l → p a = false.
Proof.
  induction l as [|a l IH]; simpl.
  - split; [|done]. intros _ a Ha. by apply elem_of_nil in Ha.
  - destruct (p a) eqn:Ea.
    + split; [done|]. intros H. specialize (H a (list_elem_of_here _ _)). congruence.
    + rewrite IH. split.
      * intros H b [->|Hb]%elem_of_cons; [done|by apply H].
      * intros H b Hb. apply H. by apply list_elem_of_further.
Qed.

Lemma find_Some_first {A} (p : A → bool) l a :
  List.find p l = Some a →
  ∃ pre suf, l = pre ++ a :: suf ∧ p a = true ∧ ∀ b, b ∈ pre → p b = false.
Proof.
  induction l as [|b l IH]; simpl; [done|].
  destruct (p b) eqn:Eb.
  - intros [= ->]. exists [], l. split_and!; [done..|].
    intros c Hc. by apply elem_of_nil in Hc.
  - intros (pre & suf & -> & Ha & Hpre)%IH. exists (b :: pre), suf.
    split_and!; [done..|]. intros c [->|Hc]%elem_of_cons; [done|by apply Hpre].
Qed.

Lemma elem_of_cuadrado r dx dy :
  (dx, dy) ∈ cuadrado r ↔ - r ≤ dx ≤ r ∧ - r ≤ dy ≤ r.
Proof.
  unfold cuadrado. rewrite list_elem_of_bind. split.
  - intros (dy' & (dx' & [= -> ->]%list_elem_of_singleton & Hx%elem_of_seqZ)%list_elem_of_bind
              & Hy%elem_of_seqZ). lia.
  - intros [Hx Hy]. exists dy. split; [|apply elem_of_seqZ; lia].
    apply list_elem_of_bind. exists dx. split; [by apply list_elem_of_singleton|].
    apply elem_of_seqZ. lia.
Qed.

Lemma elem_of_recorrido cx cy radio nx ny :
  (nx, ny) ∈ recorrido cx cy radio ↔ 1 ≤ radio ∧ chebyshev cx cy nx ny ≤ radio.
Proof.
  unfold recorrido, chebyshev. rewrite list_elem_of_bind. split.
  - intros (r & ([dx dy] & [= -> ->]%list_elem_of_singleton & Hd%elem_of_cuadrado)%list_elem_of_bind
              & Hr%elem_of_seqZ). simpl. lia.
  - intros [H1 Hc]. exists radio. split; [|apply elem_of_seqZ; lia].
    apply list_elem_of_bind. exists (nx - cx, ny - cy). split.
    + apply list_elem_of_singleton. simpl. f_equal; lia.
    + apply elem_of_cuadrado. lia.
Qed.

Lemma es_vegetacion_true grilla nx ny :
  es_vegetacion grilla (nx, ny) = true ↔
  inb grilla ny nx ∧ getitem grilla ny nx = Some VEGETACION.
Proof.
  unfold es_vegetacion. simpl. rewrite andb_true_iff, en_rango_inb.
  destruct (getitem grilla ny nx) as [c|]; [|by split; intros [_ ?]].
  destruct (Z.eqb_spec c VEGETACION) as [->|Hne].
  - by split; intros [? _].
  - split; intros [_ ?]; [done|congruence].
Qed.

Lemma buscar_vecino_ref_None grilla cx cy radio :
  buscar_vecino_ref grilla cx cy radio = None ↔
  radio < 1 ∨ sin_vegetacion grilla cx cy radio.
Proof.
  unfold buscar_vecino_ref, sin_vegetacion. rewrite find_None_iff. split.
  - intros H. destruct (decide (radio < 1)) as [|Hr]; [by left|right].
    intros nx ny Hin Hc Hv.
    assert (es_vegetacion grilla (nx, ny) = true) as Ht by by apply es_vegetacion_true.
    rewrite H in Ht; [done|]. apply elem_of_recorrido. lia.
  - intros H [nx ny] [Hr Hc]%elem_of_recorrido.
    destruct H as [?|H]; [lia|].
    destruct (es_vegetacion grilla (nx, ny)) eqn:Ev; [|done].
    apply es_vegetacion_true in Ev as [Hin Hv]. by destruct (H nx ny).
Qed.

Lemma ejemplo_7x7 cx cy :
  0 ≤ cx + 2 < 7 → 0 ≤ cy + 2 < 7 →
  buscar_vecino (grilla_7x7 (cy + 2) (cx + 2)) cx cy 3 = Some (Some (cx + 2, cy + 2)) ∧
  buscar_vecino (grilla_7x7 (cy + 2) (cx + 2)) cx cy 1 = Some None.
Proof.
  intros Hx Hy.
  assert (cx ∈ seqZ (-2) 7) as Hcx by (apply elem_of_seqZ; lia).
  assert (cy ∈ seqZ (-2) 7) as Hcy by (apply elem_of_seqZ; lia).
  clear Hx Hy.
  change (seqZ (-2) 7) with [-2; -1; 0; 1; 2; 3; 4] in *.
  repeat (apply elem_of_cons in Hcx as [->|Hcx]);
    [..|by apply elem_of_nil in Hcx];
    (repeat (apply elem_of_cons in Hcy as [->|Hcy]);
     [..|by apply elem_of_nil in Hcy]; by vm_compute).
Qed.

(** ** The propagation step: what the invariant gives *)

Lemma paso_resumen ar grilla viento velocidad pendiente rnd k :
  wf grilla → wf pendiente → same_shape grilla pendiente →
  ∃ s, paso ar grilla viento velocidad pendiente rnd k = Some s ∧
       actualizar ar grilla viento velocidad pendiente rnd k = Some (nueva s) ∧
       buena grilla viento velocidad pendiente rnd s ∧
       ext grilla (Estado grilla k []) s ∧
       ∀ y x, hecho_celda grilla y x s.
Proof.
  intros Hwf Hwfp Hsh.
  destruct (paso_spec ar grilla viento velocidad pendiente rnd Hwf Hwfp Hsh k)
    as (s & E & Hb & He & Hh).
  exists s. split_and!; [done| |done..]. unfold actualizar. by rewrite E.
Qed.

(** C1: every cell burning in the input is burned in the output, and
    every trial of the step is aimed at a cell that is fuel in the input,
    so none can set such a cell back to burning. *)
Theorem fuego_pasa_a_quemado ar grilla viento velocidad
    (pendiente : ndarray (elem ar)) rnd k :
  wf grilla → wf pendiente → same_shape grilla pendiente →
  ∃ s, paso ar grilla viento velocidad pendiente rnd k = Some s ∧
       actualizar ar grilla viento velocidad pendiente rnd k = Some (nueva s) ∧
       (∀ y x, inb grilla y x → getitem grilla y x = Some FUEGO →
               getitem (nueva s) y x = Some QUEMADO) ∧
       (∀ t, t ∈ intentos s →
             getitem grilla (t_y t + t_dy t) (t_x t + t_dx t) = Some VEGETACION).
Proof.
  intros Hwf Hwfp Hsh.
  destruct (paso_resumen ar grilla viento velocidad pendiente rnd k Hwf Hwfp Hsh)
    as (s & E & Ea & Hb & He & Hh).
  exists s. split_and!; [done|done| |].
  - intros y x Hin Hf. by destruct (Hh y x Hin Hf).
  - intros t Ht. destruct Hb as (_ & _ & _ & Hval & _).
    rewrite Forall_forall in Hval. by destruct (Hval t Ht) as (_&_&_&_&_&Hv&_).
Qed.

Lemma fuego_pasa_a_quemado_ej :
  ∃ out, actualizar binary64 grilla_ej (1, 0) 10 pendiente_ej rnd_ej 0 = Some out ∧
         getitem out 1 1 = Some QUEMADO.
Proof.
  destruct (fuego_pasa_a_quemado binary64 grilla_ej (1, 0) 10%float pendiente_ej
              rnd_ej 0%nat) as (s & _ & Ea & Hq & _); [by vm_compute..|].
  exists (nueva s). split; [done|]. clear Ea. apply Hq; [en_grilla|calcula].
Defined.

(** C3: a cell that is empty or burned in the input holds the same state
    in the output, and no trial of the step is aimed at it. *)
Theorem vacio_y_quemado_no_cambian ar grilla viento velocidad
    (pendiente : ndarray (elem ar)) rnd k :
  wf grilla → wf pendiente → same_shape grilla pendiente →
  ∃ s, paso ar grilla viento velocidad pendiente rnd k = Some s ∧
       actualizar ar grilla viento velocidad pendiente rnd k = Some (nueva s) ∧
       ∀ y x, inb grilla y x →
         getitem grilla y x = Some VACIO ∨ getitem grilla y x = Some QUEMADO →
         getitem (nueva s) y x = getitem grilla y x ∧
         ∀ t, t ∈ intentos s → destino t ≠ (y, x).
Proof.
  intros Hwf Hwfp Hsh.
  destruct (paso_resumen ar grilla viento velocidad pendiente rnd k Hwf Hwfp Hsh)
    as (s & E & Ea & Hb & He & Hh).
  exists s. split_and!; [done|done|]. intros y x Hin Hc. split.
  - destruct (proj2 He y x Hin) as [Hs|[[Hf _]|[Hv _]]]; [done| |];
      destruct Hc; estados.
  - intros t Ht [= Ey Ex]. destruct Hb as (_ & _ & _ & Hval & _).
    rewrite Forall_forall in Hval. destruct (Hval t Ht) as (_&_&_&_&_&Hv&_).
    rewrite Ey, Ex in Hv. destruct Hc; estados.
Qed.

Lemma vacio_y_quemado_no_cambian_ej :
  ∃ out, actualizar binary64 grilla_ej (1, 0) 10 pendiente_ej rnd_ej 0 = Some out ∧
         getitem out 0 2 = Some VACIO ∧ getitem out 2 0 = Some QUEMADO.
Proof.
  destruct (vacio_y_quemado_no_cambian binary64 grilla_ej (1, 0) 10%float pendiente_ej
              rnd_ej 0%nat) as (s & _ & Ea & H); [by vm_compute..|].
  exists (nueva s). split_and!; [done| |]; clear Ea.
  - apply (H 0 2); [en_grilla|by left].
  - apply (H 2 0); [en_grilla|by right].
Defined.

(** C4: a fuel cell none of whose eight Moore neighbours burns in the
    input is still fuel in the output. *)
Theorem vegetacion_sin_fuego_cerca ar grilla viento velocidad
    (pendiente : ndarray (elem ar)) rnd k y x :
  wf grilla → wf pendiente → same_shape grilla pendiente →
  inb grilla y x → getitem grilla y x = Some VEGETACION →
  (∀ dy dx, dy ∈ [-1; 0; 1] → dx ∈ [-1; 0; 1] → (dy, dx) ≠ (0, 0) →
            inb grilla (y + dy) (x + dx) →
            getitem grilla (y + dy) (x + dx) ≠ Some FUEGO) →
  ∃ out, actualizar ar grilla viento velocidad pendiente rnd k = Some out ∧
         getitem out y x = Some VEGETACION.
Proof.
  intros Hwf Hwfp Hsh Hin Hv Hmoore.
  destruct (paso_resumen ar grilla viento velocidad pendiente rnd k Hwf Hwfp Hsh)
    as (s & E & Ea & Hb & He & Hh).
  exists (nueva s). split; [done|].
  destruct (proj2 He y x Hin) as [Hs|[[Hf _]|(_ & _ & t & Ht & [= Ey Ex] & _)]];
    [by rewrite Hs|estados|].
  exfalso. destruct Hb as (_ & _ & _ & Hval & _).
  rewrite Forall_forall in Hval. pose proof (Hval t Ht) as Hvt.
  pose proof (valido_offset _ _ _ _ _ _ _ Hvt) as Hoff.
  destruct Hvt as (Hit & Hft & Hdy & Hdx & _).
  apply (Hmoore (- t_dy t) (- t_dx t)).
  - clear -Hdy. rewrite !elem_of_cons in *. rewrite elem_of_nil in *. lia.
  - clear -Hdx. rewrite !elem_of_cons in *. rewrite elem_of_nil in *. lia.
  - intros [= ? ?]. apply Hoff. f_equal; lia.
  - by replace (y + - t_dy t) with (t_y t) by lia;
       replace (x + - t_dx t) with (t_x t) by lia.
  - by replace (y + - t_dy t) with (t_y t) by lia;
       replace (x + - t_dx t) with (t_x t) by lia.
Qed.

Lemma vegetacion_sin_fuego_cerca_ej :
  ∃ out, actualizar binary64 grilla_lejos (1, 0) 10 pendiente_ej rnd_ej 0 = Some out ∧
         getitem out 0 0 = Some VEGETACION.
Proof.
  apply (vegetacion_sin_fuego_cerca binary64 grilla_lejos (1, 0) 10%float pendiente_ej rnd_ej
           0%nat 0 0); [by vm_compute..|].
  intros dy dx Hdy Hdx _ Hin.
  rewrite !elem_of_cons, elem_of_nil in Hdy, Hdx.
  destruct Hdy as [->|[->|[->|[]]]], Hdx as [->|[->|[->|[]]]];
    try (by vm_compute); exfalso; unfold inb in Hin; simpl in Hin; lia.
Defined.

(** C7: at the offset [(0, 0)] of a burning cell the loop body does
    nothing, neither a draw nor a store, and no trial of the step has that
    offset: the source cell is never the target of a trial. *)
Theorem sin_intento_sobre_la_fuente ar grilla viento velocidad
    (pendiente : ndarray (elem ar)) rnd k :
  wf grilla → wf pendiente → same_shape grilla pendiente →
  (∀ y x s, inb grilla y x → getitem grilla y x = Some FUEGO →
            vecino ar grilla viento velocidad pendiente rnd y x 0 0 s = Some s) ∧
  ∃ s, paso ar grilla viento velocidad pendiente rnd k = Some s ∧
       ∀ t, t ∈ intentos s →
            (t_dy t, t_dx t) ≠ (0, 0) ∧ destino t ≠ (t_y t, t_x t).
Proof.
  intros Hwf Hwfp Hsh. split.
  - intros y x s Hin Hf. unfold vecino. rewrite !Z.add_0_r.
    destruct (en_rango grilla x y); [|done]. rewrite Hf. simpl. done.
  - destruct (paso_resumen ar grilla viento velocidad pendiente rnd k Hwf Hwfp Hsh)
      as (s & E & Ea & Hb & He & Hh).
    exists s. split; [done|]. intros t Ht. destruct Hb as (_ & _ & _ & Hval & _).
    rewrite Forall_forall in Hval.
    pose proof (valido_offset _ _ _ _ _ _ _ (Hval t Ht)) as Hoff.
    split; [done|]. unfold destino. intros [= ? ?]. apply Hoff. f_equal; lia.
Qed.

Lemma sin_intento_sobre_la_fuente_ej :
  vecino binary64 grilla_ej (1, 0) 10 pendiente_ej rnd_ej 1 1 0 0 (Estado grilla_ej 0 [])
  = Some (Estado grilla_ej 0 []).
Proof.
  destruct (sin_intento_sobre_la_fuente binary64 grilla_ej (1, 0) 10%float pendiente_ej rnd_ej 0%nat)
    as [H _]; [by vm_compute..|].
  apply H; by vm_compute.
Defined.

(** C9: with the wind vector [(0, 0)] no trial of the step is wind-aligned:
    each uses the formula [0.3 + 0.1 * pend + 0.01 * velocidad] with the
    slope of its target, in whatever arithmetic the slope array brings. *)
Theorem viento_nulo_no_alinea ar grilla velocidad
    (pendiente : ndarray (elem ar)) rnd k :
  wf grilla → wf pendiente → same_shape grilla pendiente →
  ∃ s, paso ar grilla (0, 0) velocidad pendiente rnd k = Some s ∧
       ∀ t, t ∈ intentos s →
         t_es_viento t = false ∧
         getitem grilla (t_y t + t_dy t) (t_x t + t_dx t) = Some VEGETACION ∧
         ∃ pend, getitem pendiente (t_y t + t_dy t) (t_x t + t_dx t) = Some pend ∧
                 t_prob t = mas ar (mas_a ar 0.3 (por ar 0.1 pend))
                                   (0.01 * velocidad)%float.
Proof.
  intros Hwf Hwfp Hsh.
  destruct (paso_resumen ar grilla (0, 0) velocidad pendiente rnd k Hwf Hwfp Hsh)
    as (s & E & Ea & Hb & He & Hh).
  exists s. split; [done|]. intros t Ht. destruct Hb as (_ & _ & _ & Hval & _).
  rewrite Forall_forall in Hval. pose proof (Hval t Ht) as Hvt.
  pose proof (valido_offset _ _ _ _ _ _ _ Hvt) as Hoff.
  destruct Hvt as (_ & _ & _ & _ & _ & Hv & Hp & Hw & Hpr & _). simpl in Hw.
  assert (t_es_viento t = false) as Hfalse.
  { rewrite Hw. destruct (Z.eqb_spec (t_dx t) 0) as [Ex|]; [|done].
    destruct (Z.eqb_spec (t_dy t) 0) as [Ey|]; [|done].
    destruct Hoff. by rewrite Ex, Ey. }
  split_and!; [done|done|]. exists (t_pend t). split; [done|].
  by rewrite Hpr, Hfalse.
Qed.

Lemma viento_nulo_no_alinea_ej :
  ∃ s, paso binary64 grilla_ej (0, 0) 10 pendiente_ej rnd_ej 0 = Some s ∧
       Forall (λ t, t_es_viento t = false) (intentos s).
Proof.
  destruct (viento_nulo_no_alinea binary64 grilla_ej 10%float pendiente_ej rnd_ej 0%nat)
    as (s & E & H); [by vm_compute..|].
  exists s. split; [done|]. apply Forall_forall. intros t Ht. by destruct (H t Ht).
Defined.



(** C8: a grid holding only empty and burned cells is returned unchanged
    by the step, whatever the wind, the speed, the slope field and the
    generator, and so it is by any number of steps. *)
Theorem estados_terminales_punto_fijo ar grilla viento velocidad
    (pendiente : ndarray (elem ar)) rnd k :
  wf grilla →
  Forall (λ c, c = VACIO ∨ c = QUEMADO) (data grilla) →
  actualizar ar grilla viento velocidad pendiente rnd k = Some grilla ∧
  ∀ horas, simular ar horas pendiente rnd grilla k = Some (grilla, k).
Proof.
  intros Hwf Hall. split.
  - unfold actualizar. by rewrite paso_sin_fuego.
  - intros horas. induction horas as [|[v vel] horas IH]; [done|].
    simpl. rewrite paso_sin_fuego by done. simpl. apply IH.
Qed.

Lemma estados_terminales_punto_fijo_ej :
  actualizar binary64 grilla_apagada (0, 1) 20 pendiente_2x2 rnd_ej 0 = Some grilla_apagada ∧
  simular binary64 [((0, 1), 20%float); ((1, 1), 35%float); ((-1, 0), 5%float)]
          pendiente_2x2 rnd_ej grilla_apagada 0
  = Some (grilla_apagada, 0%nat).
Proof.
  destruct (estados_terminales_punto_fijo binary64 grilla_apagada (0, 1) 20%float pendiente_2x2
              rnd_ej 0%nat) as [H1 H2].
  - by vm_compute.
  - unfold grilla_apagada. simpl.
    repeat (apply Forall_cons; split; [first [by left|by right]|]). constructor.
  - split; [done|]. apply H2.
Defined.

(** ** The fuel locator: results *)

Lemma es_vegetacion_false grilla nx ny :
  (inb grilla ny nx → getitem grilla ny nx ≠ Some VEGETACION) →
  es_vegetacion grilla (nx, ny) = false.
Proof.
  intros H. destruct (es_vegetacion grilla (nx, ny)) eqn:E; [|done].
  apply es_vegetacion_true in E as [Hin Hv]. by destruct (H Hin).
Qed.

(** C5, amended: the locator is the reference search (squares of radius 1
    up to the maximum, row offset outer and column offset inner, both
    ascending, out-of-bounds cells skipped, first in-bounds fuel cell
    returned); it answers not-found exactly when the maximum radius is
    below 1 or no in-bounds fuel cell lies within that Chebyshev distance
    of the target; and on the all-empty 7x7 grid with one fuel cell at
    offset (2, 2) the default radius 3 finds the cell and radius 1 does
    not. *)
Theorem buscar_vecino_es_la_referencia grilla cx cy radio :
  wf grilla →
  buscar_vecino grilla cx cy radio = Some (buscar_vecino_ref grilla cx cy radio) ∧
  (buscar_vecino grilla cx cy radio = Some None ↔
     radio < 1 ∨ sin_vegetacion grilla cx cy radio) ∧
  (∀ nx ny, buscar_vecino grilla cx cy radio = Some (Some (nx, ny)) →
     inb grilla ny nx ∧ getitem grilla ny nx = Some VEGETACION ∧
     ∃ pre suf, recorrido cx cy radio = pre ++ (nx, ny) :: suf ∧
                ∀ q, q ∈ pre → es_vegetacion grilla q = false) ∧
  (∀ ox oy, 0 ≤ ox + 2 < 7 → 0 ≤ oy + 2 < 7 →
     buscar_vecino (grilla_7x7 (oy + 2) (ox + 2)) ox oy radio_por_defecto
       = Some (Some (ox + 2, oy + 2)) ∧
     buscar_vecino (grilla_7x7 (oy + 2) (ox + 2)) ox oy 1 = Some None).
Proof.
  intros Hwf. rewrite buscar_vecino_ref_eq by done. split_and!.
  - done.
  - rewrite <- buscar_vecino_ref_None. split; [by intros [= ->]|by intros ->].
  - intros nx ny [= E]. unfold buscar_vecino_ref in E.
    apply find_Some_first in E as (pre & suf & El & [Hin Hv]%es_vegetacion_true & Hpre).
    split_and!; [done..|]. by exists pre, suf.
  - intros ox oy Hx Hy. by apply ejemplo_7x7.
Qed.

Lemma buscar_vecino_es_la_referencia_ej :
  buscar_vecino grilla_ej 2 2 radio_por_defecto = Some (Some (2, 1)).
Proof.
  destruct (buscar_vecino_es_la_referencia grilla_ej 2 2 radio_por_defecto)
    as [H _]; [by vm_compute|].
  rewrite H. by vm_compute.
Defined.

(** C5 as first stated fails at radius 0: nothing is scanned, so the answer
    is not-found although the target, at Chebyshev distance 0, holds fuel. *)
Lemma buscar_vecino_radio_0 :
  ¬ (buscar_vecino grilla_1x1 0 0 0 = Some None ↔ sin_vegetacion grilla_1x1 0 0 0).
Proof.
  intros [H _]. apply (H eq_refl 0 0); by vm_compute.
Qed.

(** C10: the squares scanned contain the offset [(0, 0)], so the target is
    itself a candidate: when it holds fuel and the four cells scanned before
    it at radius 1 (the row above, and its left neighbour) do not, the
    locator returns the target. *)
Theorem buscar_vecino_devuelve_el_objetivo grilla cx cy radio :
  wf grilla → 1 ≤ radio →
  inb grilla cy cx → getitem grilla cy cx = Some VEGETACION →
  (∀ dx, dx ∈ [-1; 0; 1] → inb grilla (cy - 1) (cx + dx) →
         getitem grilla (cy - 1) (cx + dx) ≠ Some VEGETACION) →
  (inb grilla cy (cx - 1) → getitem grilla cy (cx - 1) ≠ Some VEGETACION) →
  (∀ r, 1 ≤ r → 0 ∈ range2 (- r) (r + 1)) ∧
  buscar_vecino grilla cx cy radio = Some (Some (cx, cy)).
Proof.
  intros Hwf Hr Hin Hv Harriba Hizq. split.
  { intros r Hr1. apply elem_of_seqZ. lia. }
  rewrite buscar_vecino_ref_eq by done. f_equal.
  unfold buscar_vecino_ref, recorrido.
  rewrite (seqZ_cons 1 radio), bind_cons, find_primero, primero_app by lia.
  change (cuadrado 1) with
    [(-1, -1); (0, -1); (1, -1); (-1, 0); (0, 0); (1, 0); (-1, 1); (0, 1); (1, 1)].
  cbn [mbind list_bind foldr app primero fst snd].
  assert (∀ dx, dx ∈ [-1; 0; 1] → es_vegetacion grilla (cx + dx, cy + -1) = false)
    as Ha.
  { intros dx Hdx. apply es_vegetacion_false.
    replace (cy + -1) with (cy - 1) by lia. by apply Harriba. }
  rewrite !Ha by (rewrite !elem_of_cons; lia).
  rewrite (es_vegetacion_false grilla (cx + -1) (cy + 0)); cycle 1.
  { replace (cy + 0) with cy by lia. replace (cx + -1) with (cx - 1) by lia. done. }
  rewrite !Z.add_0_r.
  assert (es_vegetacion grilla (cx, cy) = true) as -> by by apply es_vegetacion_true.
  done.
Qed.

Lemma buscar_vecino_devuelve_el_objetivo_ej :
  buscar_vecino grilla_centro 1 1 radio_por_defecto = Some (Some (1, 1)).
Proof.
  apply (buscar_vecino_devuelve_el_objetivo grilla_centro 1 1 radio_por_defecto);
    try (by vm_compute).
  intros dx Hdx _. rewrite !elem_of_cons, elem_of_nil in Hdx.
  destruct Hdx as [->|[->|[->|[]]]]; by vm_compute.
Defined.

(** ** More on the propagation step *)

Lemma paso_sin_celdas_en_fuego ar grilla viento velocidad pendiente rnd k :
  wf grilla →
  (∀ y x, inb grilla y x → getitem grilla y x ≠ Some FUEGO) →
  paso ar grilla viento velocidad pendiente rnd k = Some (Estado grilla k []).
Proof.
  intros Hwf Hno. unfold paso.
  apply for_id. intros y Hy%elem_of_seqZ.
  apply for_id. intros x Hx%elem_of_seqZ.
  assert (inb grilla y x) as Hin by (unfold inb; lia).
  destruct (getitem_inb grilla y x Hwf Hin) as [c Hc].
  eapply celda_no_fuego; [done|]. intros ->. by destruct (Hno y x Hin).
Qed.

(** The transitions of one cell in one step. *)
Lemma paso_transiciones ar grilla viento velocidad pendiente rnd k :
  wf grilla → wf pendiente → same_shape grilla pendiente →
  ∃ s, paso ar grilla viento velocidad pendiente rnd k = Some s ∧
       wf (nueva s) ∧ same_shape (nueva s) grilla ∧
       ∀ y x, inb grilla y x →
         ∃ a b, getitem grilla y x = Some a ∧ getitem (nueva s) y x = Some b ∧
                ((a = FUEGO ∧ b = QUEMADO) ∨
                 (a = VEGETACION ∧ (b = VEGETACION ∨ b = FUEGO)) ∨
                 (a ≠ FUEGO ∧ a ≠ VEGETACION ∧ b = a)).
Proof.
  intros Hwf Hwfp Hsh.
  destruct (paso_resumen ar grilla viento velocidad pendiente rnd k Hwf Hwfp Hsh)
    as (s & E & Ea & Hb & He & Hh).
  exists s. destruct Hb as (E0 & E1 & Hwn & _).
  split_and!; [done|done|done|].
  intros y x Hin. destruct (getitem_inb grilla y x Hwf Hin) as [a Ha].
  assert (inb (nueva s) y x) as Hin' by (unfold inb; by rewrite E0, E1).
  destruct (getitem_inb (nueva s) y x Hwn Hin') as [b Hb].
  exists a, b. split_and!; [done..|].
  destruct (decide (a = FUEGO)) as [->|Hnf].
  { left. split; [done|]. destruct (Hh y x Hin Ha) as [Hq _]. congruence. }
  right. destruct (proj2 He y x Hin) as [Hs|[[Hf _]|(Hv & Hfu & _)]]; simpl in *.
  - destruct (decide (a = VEGETACION)) as [->|Hnv].
    + left. split; [done|]. left. congruence.
    + right. split_and!; [done..|]. congruence.
  - congruence.
  - left. split; [congruence|]. right. congruence.
Qed.

(** X1: the step returns its input unchanged exactly when no cell of the
    input burns, and then it takes no draw from the generator. *)
Theorem actualizar_no_cambia_sii_sin_fuego ar grilla viento velocidad
    (pendiente : ndarray (elem ar)) rnd k :
  wf grilla → wf pendiente → same_shape grilla pendiente →
  (actualizar ar grilla viento velocidad pendiente rnd k = Some grilla ↔
   ∀ y x, inb grilla y x → getitem grilla y x ≠ Some FUEGO) ∧
  ((∀ y x, inb grilla y x → getitem grilla y x ≠ Some FUEGO) →
   paso ar grilla viento velocidad pendiente rnd k = Some (Estado grilla k [])).
Proof.
  intros Hwf Hwfp Hsh. split; [split|].
  - intros Hact y x Hin Hf.
    destruct (paso_resumen ar grilla viento velocidad pendiente rnd k Hwf Hwfp Hsh)
      as (s & E & Ea & Hb & He & Hh).
    rewrite Ea in Hact. injection Hact as Hs.
    destruct (Hh y x Hin Hf) as [Hq _]. rewrite Hs in Hq. estados.
  - intros Hno. unfold actualizar. by rewrite paso_sin_celdas_en_fuego.
  - by apply paso_sin_celdas_en_fuego.
Qed.

Lemma actualizar_no_cambia_sii_sin_fuego_ej :
  actualizar binary64 grilla_verde (1, 0) 10 pendiente_ej rnd_ej 0 = Some grilla_verde ∧
  actualizar binary64 grilla_ej (1, 0) 10 pendiente_ej rnd_ej 0 ≠ Some grilla_ej.
Proof.
  destruct (actualizar_no_cambia_sii_sin_fuego binary64 grilla_verde (1, 0) 10%float
              pendiente_ej rnd_ej 0%nat) as [[_ H1] _]; [by vm_compute..|].
  destruct (actualizar_no_cambia_sii_sin_fuego binary64 grilla_ej (1, 0) 10%float
              pendiente_ej rnd_ej 0%nat) as [[H2 _] _]; [by vm_compute..|].
  split.
  - apply H1. intros y x [Hy Hx]. simpl in Hy, Hx.
    assert (y ∈ seqZ 0 3) as Hy' by (apply elem_of_seqZ; lia).
    assert (x ∈ seqZ 0 3) as Hx' by (apply elem_of_seqZ; lia).
    change (seqZ 0 3) with [0; 1; 2] in *.
    rewrite !elem_of_cons, elem_of_nil in Hy', Hx'.
    destruct Hy' as [->|[->|[->|[]]]], Hx' as [->|[->|[->|[]]]]; by vm_compute.
  - intros H. apply (H2 H 1 1); [en_grilla|calcula].
Defined.

(** X2: the output of the step is an array of the input's shape, and each
    cell follows the transition table: burning becomes burned, fuel stays
    fuel or becomes burning, and any other value stays as it is. *)
Theorem actualizar_transiciones ar grilla viento velocidad
    (pendiente : ndarray (elem ar)) rnd k :
  wf grilla → wf pendiente → same_shape grilla pendiente →
  ∃ out, actualizar ar grilla viento velocidad pendiente rnd k = Some out ∧
         wf out ∧ same_shape out grilla ∧
         ∀ y x, inb grilla y x →
           ∃ a b, getitem grilla y x = Some a ∧ getitem out y x = Some b ∧
                  ((a = FUEGO ∧ b = QUEMADO) ∨
                   (a = VEGETACION ∧ (b = VEGETACION ∨ b = FUEGO)) ∨
                   (a ≠ FUEGO ∧ a ≠ VEGETACION ∧ b = a)).
Proof.
  intros Hwf Hwfp Hsh.
  destruct (paso_transiciones ar grilla viento velocidad pendiente rnd k Hwf Hwfp Hsh)
    as (s & E & H).
  exists (nueva s). split; [|done]. unfold actualizar. by rewrite E.
Qed.

Lemma actualizar_transiciones_ej :
  ∃ out, actualizar binary64 grilla_ej (1, 0) 10 pendiente_ej rnd_ej 0 = Some out ∧
         shape0 out = 3 ∧ shape1 out = 3 ∧ length (data out) = 9%nat.
Proof.
  destruct (actualizar_transiciones binary64 grilla_ej (1, 0) 10%float pendiente_ej rnd_ej 0%nat)
    as (out & E & (_ & _ & Hl) & [E0 E1] & _); [by vm_compute..|].
  exists out. rewrite E0, E1 in Hl. simpl in *. split_and!; [done..|lia].
Defined.

(** X3: a cell burns in the output exactly when it was fuel in the input
    and the draw of some trial aimed at it fell below the trial's capped
    probability ([1.0] when [1.0 < prob], else [prob]); the source of such a
    trial is a Moore neighbour that burns in the input. *)
Theorem ignicion_sii_intento_exitoso ar grilla viento velocidad
    (pendiente : ndarray (elem ar)) rnd k :
  wf grilla → wf pendiente → same_shape grilla pendiente →
  ∃ s, paso ar grilla viento velocidad pendiente rnd k = Some s ∧
       actualizar ar grilla viento velocidad pendiente rnd k = Some (nueva s) ∧
       ∀ y x, inb grilla y x →
         (getitem (nueva s) y x = Some FUEGO ↔
          getitem grilla y x = Some VEGETACION ∧
          ∃ t, t ∈ intentos s ∧ destino t = (y, x) ∧
               (if menor ar 1 (t_prob t) then (t_u t <? 1)%float
                else menor ar (t_u t) (t_prob t)) = true ∧
               getitem grilla (t_y t) (t_x t) = Some FUEGO ∧
               chebyshev (t_x t) (t_y t) x y = 1).
Proof.
  intros Hwf Hwfp Hsh.
  destruct (paso_resumen ar grilla viento velocidad pendiente rnd k Hwf Hwfp Hsh)
    as (s & E & Ea & Hb & He & Hh).
  exists s. split_and!; [done..|]. intros y x Hin.
  destruct Hb as (_ & _ & _ & Hval & Hex). rewrite Forall_forall in Hval. split.
  - intros Hfu.
    destruct (proj2 He y x Hin) as [Hs|[[_ Hq]|(Hv & _ & t & Ht & Hd & Hx)]];
      simpl in *.
    + rewrite Hfu in Hs. symmetry in Hs. destruct (Hh y x Hin Hs) as [Hq _]. estados.
    + estados.
    + split; [done|]. exists t. split_and!; [done..| |].
      * by destruct (Hval t Ht) as (_ & Hf & _).
      * pose proof (valido_offset _ _ _ _ _ _ _ (Hval t Ht)) as Hoff.
        destruct (Hval t Ht) as (_ & _ & Hdy & Hdx & _).
        injection Hd as <- <-. unfold chebyshev.
        rewrite !elem_of_cons, elem_of_nil in Hdy, Hdx.
        assert (t_dy t ≠ 0 ∨ t_dx t ≠ 0) as Hnz.
        { destruct (decide (t_dy t = 0)) as [Ey|]; [|by left].
          right. intros Ex. apply Hoff. by rewrite Ey, Ex. }
        lia.
  - intros (_ & t & Ht & [= <- <-] & Hx & _). by apply Hex.
Qed.

Lemma ignicion_sii_intento_exitoso_ej :
  ∃ s, paso binary64 grilla_ej (1, 0) 10 pendiente_ej rnd_ej 0 = Some s ∧
       ∃ t, t ∈ intentos s ∧ destino t = (0, 0) ∧ exito t = true.
Proof.
  destruct (ignicion_sii_intento_exitoso binary64 grilla_ej (1, 0) 10%float pendiente_ej rnd_ej 0%nat)
    as (s & E & _ & H); [by vm_compute..|].
  exists s. split; [done|].
  assert (getitem (nueva s) 0 0 = Some FUEGO) as Hf.
  { clear H. vm_compute in E. injection E as <-. calcula. }
  clear E. apply H in Hf as (_ & t & Ht & Hd & Hx & _); [|en_grilla].
  by exists t.
Defined.

(** What every terminating run of a loop keeps. *)
Lemma for_preserva {S A : Type} (I : S → Prop) (l : list A) (body : A → S → option S) :
  (∀ a s s', a ∈ l → I s → body a s = Some s' → I s') →
  ∀ s s', I s → for_ l body s = Some s' → I s'.
Proof.
  induction l as [|a l IH]; intros Hbody s s' Hs E; simpl in E.
  - by injection E as <-.
  - destruct (body a s) as [s1|] eqn:E1; [simpl in E|done].
    apply (IH (λ b t t' Hb, Hbody b t t' (list_elem_of_further _ _ _ Hb)) s1 s');
      [|done].
    eapply Hbody; [apply list_elem_of_here|done..].
Qed.

Lemma contado_intento {ar} rnd k (s : estado ar) n t :
  contado rnd k s → t_u t = rnd (sacados s) →
  contado rnd k (Estado n (S (sacados s)) (intentos s ++ [t])).
Proof.
  intros [Hc Hd] Ht. split; simpl.
  - rewrite length_app. simpl. lia.
  - intros i t' Hi. destruct (decide (i < length (intentos s))%nat) as [Hlt|Hge].
    + rewrite lookup_app_l in Hi by done. by apply Hd.
    + rewrite lookup_app_r in Hi by lia.
      destruct (i - length (intentos s))%nat as [|j] eqn:Ej; [|done].
      simpl in Hi. injection Hi as <-. rewrite Ht, Hc. f_equal. lia.
Qed.

Lemma vecino_contado ar grilla viento velocidad
    (pendiente : ndarray (elem ar)) rnd k y x dy dx s s' :
  contado rnd k s →
  vecino ar grilla viento velocidad pendiente rnd y x dy dx s = Some s' →
  contado rnd k s'.
Proof.
  intros Hc. unfold vecino.
  destruct (en_rango grilla (x + dx) (y + dy)); [|by intros [= <-]].
  destruct (getitem grilla (y + dy) (x + dx)) as [c|]; [simpl|done].
  destruct (c =? VEGETACION); [|by intros [= <-]].
  destruct (getitem pendiente (y + dy) (x + dx)) as [pend|]; [simpl|done].
  destruct viento as [viento_dx viento_dy].
  destruct (bajo_el_tope ar (rnd (sacados s)) _).
  - destruct (setitem (nueva s) (y + dy) (x + dx) FUEGO) as [n|]; [simpl|done].
    intros [= <-]. by apply contado_intento.
  - intros [= <-]. by apply contado_intento.
Qed.

Lemma celda_contado ar grilla viento velocidad
    (pendiente : ndarray (elem ar)) rnd k y x s s' :
  contado rnd k s →
  celda ar grilla viento velocidad pendiente rnd y x s = Some s' →
  contado rnd k s'.
Proof.
  intros Hc. unfold celda.
  destruct (getitem grilla y x) as [c|]; [cbn -[for_]|done].
  destruct (c =? FUEGO); [|by intros [= <-]].
  destruct (setitem (nueva s) y x QUEMADO) as [n|]; [cbn -[for_]|done].
  apply (for_preserva (contado rnd k)); [|done].
  intros dy s1 s2 _ H1. apply (for_preserva (contado rnd k)); [|done].
  intros dx s3 s4 _ H3. by apply vecino_contado.
Qed.

Lemma paso_contado ar grilla viento velocidad pendiente rnd k s :
  paso ar grilla viento velocidad pendiente rnd k = Some s → contado rnd k s.
Proof.
  intros E. apply (for_preserva (contado rnd k)) in E; [done| |].
  - intros y s1 s2 _ H1. apply (for_preserva (contado rnd k)); [|done].
    intros x s3 s4 _ H3. by apply celda_contado.
  - split; simpl; [lia|]. intros i t Hi. done.
Qed.

(** A loop over consecutive integers, with an invariant that knows the
    position. *)
Lemma for_creciente {St : Type} (I : Z → St → Prop) (body : Z → St → option St) n :
  ∀ m s s',
    (∀ a t t', m ≤ a < m + Z.of_nat n → I a t → body a t = Some t' → I (a + 1) t') →
    I m s → for_ (seqZ m (Z.of_nat n)) body s = Some s' → I (m + Z.of_nat n) s'.
Proof.
  induction n as [|n IH]; intros m s s' Hbody Hs E.
  - rewrite seqZ_nil in E by lia. injection E as <-. by rewrite Z.add_0_r.
  - rewrite seqZ_cons in E by lia. simpl in E.
    destruct (body m s) as [s1|] eqn:E1; [simpl in E|done].
    replace (Z.pred (Z.of_nat (S n))) with (Z.of_nat n) in E by lia.
    replace (m + Z.of_nat (S n)) with (Z.succ m + Z.of_nat n) by lia.
    apply (IH (Z.succ m) s1 s'); [|replace (Z.succ m) with (m + 1) by lia|done].
    + intros a t t' Ha. apply Hbody. lia.
    + apply (Hbody m s s1); [lia|done..].
Qed.

Lemma barrido_mono {ar} y x dy dx y' x' dy' dx' (s : estado ar) :
  barrido y x dy dx s →
  (y, x, dy, dx) = (y', x', dy', dx') ∨ antes_que y x dy dx y' x' dy' dx' →
  barrido y' x' dy' dx' s.
Proof.
  intros [Hord Hbajo] Hle. split; [done|]. intros t Ht.
  specialize (Hbajo t Ht). unfold antes_que in *.
  destruct Hle as [[= <- <- <- <-]|Hle]; [exact Hbajo|clear -Hbajo Hle; lia].
Qed.

Lemma barrido_intento {ar} y x dy dx (s : estado ar) n m t :
  barrido y x dy dx s →
  t_y t = y → t_x t = x → t_dy t = dy → t_dx t = dx →
  barrido y x dy (dx + 1) (Estado n m (intentos s ++ [t])).
Proof.
  intros [Hord Hbajo] <- <- <- <-. split; simpl.
  - intros i j t1 t2 Hij H1 H2.
    destruct (decide (j < length (intentos s))%nat) as [Hj|Hj].
    + rewrite lookup_app_l in H1, H2 by lia. exact (Hord i j t1 t2 Hij H1 H2).
    + rewrite lookup_app_r in H2 by lia.
      destruct (j - length (intentos s))%nat as [|j'] eqn:Ej; [|done].
      simpl in H2. injection H2 as <-.
      rewrite lookup_app_l in H1 by lia.
      apply Hbajo, list_elem_of_lookup. by exists i.
  - intros t' [Ht'|Ht'%list_elem_of_singleton]%elem_of_app.
    + specialize (Hbajo t' Ht'). unfold antes_que in *. clear -Hbajo. lia.
    + subst t'. unfold antes_que. lia.
Qed.

Lemma vecino_barrido ar grilla viento velocidad (pendiente : ndarray (elem ar)) rnd
    y x dy dx s s' :
  barrido y x dy dx s →
  vecino ar grilla viento velocidad pendiente rnd y x dy dx s = Some s' →
  barrido y x dy (dx + 1) s'.
Proof.
  intros Hb. unfold vecino.
  assert (barrido y x dy (dx + 1) s) as Hb'.
  { eapply barrido_mono; [done|]. right. unfold antes_que. lia. }
  destruct (en_rango grilla (x + dx) (y + dy)); [|by intros [= <-]].
  destruct (getitem grilla (y + dy) (x + dx)) as [c|]; [simpl|done].
  destruct (c =? VEGETACION); [|by intros [= <-]].
  destruct (getitem pendiente (y + dy) (x + dx)) as [pend|]; [simpl|done].
  destruct viento as [viento_dx viento_dy].
  destruct (bajo_el_tope ar (rnd (sacados s)) _).
  - destruct (setitem (nueva s) (y + dy) (x + dx) FUEGO) as [n|]; [simpl|done].
    intros [= <-]. by apply barrido_intento.
  - intros [= <-]. by apply barrido_intento.
Qed.

Lemma celda_barrido ar grilla viento velocidad (pendiente : ndarray (elem ar)) rnd
    y x s s' :
  barrido y x (-1) (-1) s →
  celda ar grilla viento velocidad pendiente rnd y x s = Some s' →
  barrido y (x + 1) (-1) (-1) s'.
Proof.
  intros Hb. unfold celda.
  assert (barrido y (x + 1) (-1) (-1) s) as Hb'.
  { eapply barrido_mono; [done|]. right. unfold antes_que. lia. }
  destruct (getitem grilla y x) as [c|]; [cbn -[for_]|done].
  destruct (c =? FUEGO); [|by intros [= <-]].
  destruct (setitem (nueva s) y x QUEMADO) as [n|]; [cbn -[for_]|done].
  change [-1; 0; 1] with (seqZ (-1) (Z.of_nat 3)).
  intros E.
  apply (for_creciente (λ dy, barrido y x dy (-1))) in E.
  - eapply barrido_mono; [exact E|]. right. unfold antes_que. lia.
  - intros dy t t' Hdy Ht Et.
    apply (for_creciente (λ dx, barrido y x dy dx)) in Et.
    + eapply barrido_mono; [exact Et|]. right. unfold antes_que. lia.
    + intros dx u u' _ Hu Eu. by eapply vecino_barrido.
    + done.
  - destruct Hb as [Hord Hbajo]. by split.
Qed.

Lemma paso_barrido ar grilla viento velocidad
    (pendiente : ndarray (elem ar)) rnd k s :
  wf grilla →
  paso ar grilla viento velocidad pendiente rnd k = Some s →
  ∀ i j t1 t2, (i < j)%nat → intentos s !! i = Some t1 → intentos s !! j = Some t2 →
               orden_de_barrido t1 t2.
Proof.
  intros (H0 & H1 & _) E. unfold paso, range in E.
  rewrite <- (Z2Nat.id (shape0 grilla)) in E by done.
  apply (for_creciente (λ y, barrido y 0 (-1) (-1))) in E; [by destruct E| |].
  - intros y t t' _ Ht Et.
    rewrite <- (Z2Nat.id (shape1 grilla)) in Et by done.
    apply (for_creciente (λ x, barrido y x (-1) (-1))) in Et.
    + eapply barrido_mono; [exact Et|]. right. unfold antes_que. lia.
    + intros x u u' _ Hu Eu. by eapply celda_barrido.
    + done.
  - split; simpl; [intros i j t1 t2 _ Hi; by rewrite lookup_nil in Hi|].
    intros t Ht. by apply elem_of_nil in Ht.
Qed.

(** X4: the trials of the step are the pairs of a burning cell and an
    in-bounds fuel neighbour, each once, listed in the order of the scan
    (rows, then columns, then [dy], then [dx], ascending), and the
    generator is read once per trial in that order: started after [k]
    draws, the [i]-th trial of the scan uses draw [k + i], and the step
    leaves the generator after [k] plus the number of trials. *)
Theorem un_sorteo_por_intento ar grilla viento velocidad
    (pendiente : ndarray (elem ar)) rnd k :
  wf grilla → wf pendiente → same_shape grilla pendiente →
  ∃ s, paso ar grilla viento velocidad pendiente rnd k = Some s ∧
       sacados s = (k + length (intentos s))%nat ∧
       (∀ i t, intentos s !! i = Some t → t_u t = rnd (k + i)%nat) ∧
       (∀ i j t1 t2, (i < j)%nat →
          intentos s !! i = Some t1 → intentos s !! j = Some t2 →
          orden_de_barrido t1 t2) ∧
       (∀ y x dy dx,
          (∃ t, t ∈ intentos s ∧ t_y t = y ∧ t_x t = x ∧ t_dy t = dy ∧ t_dx t = dx) ↔
          inb grilla y x ∧ getitem grilla y x = Some FUEGO ∧
          dy ∈ [-1; 0; 1] ∧ dx ∈ [-1; 0; 1] ∧
          inb grilla (y + dy) (x + dx) ∧
          getitem grilla (y + dy) (x + dx) = Some VEGETACION).
Proof.
  intros Hwf Hwfp Hsh.
  destruct (paso_resumen ar grilla viento velocidad pendiente rnd k Hwf Hwfp Hsh)
    as (s & E & _ & Hb & _ & Hh).
  exists s. pose proof (paso_contado _ _ _ _ _ _ _ _ E) as [Hn Hd].
  split_and!; [done|done|done|by eapply paso_barrido|].
  intros y x dy dx. destruct Hb as (_ & _ & _ & Hval & _).
  rewrite Forall_forall in Hval. split.
  - intros (t & Ht & <- & <- & <- & <-).
    by destruct (Hval t Ht) as (? & ? & ? & ? & ? & ? & _).
  - intros (Hin & Hf & Hdy & Hdx & Hin' & Hv).
    destruct (Hh y x Hin Hf) as [_ Hvec]. by apply Hvec.
Qed.

Lemma un_sorteo_por_intento_ej :
  ∃ s, paso binary64 grilla_ej (1, 0) 10 pendiente_ej rnd_ej 7 = Some s ∧
       sacados s = 12%nat ∧
       ∃ t, intentos s !! 1%nat = Some t ∧ t_u t = rnd_ej 8 ∧
            (t_y t, t_x t, t_dy t, t_dx t) = (1, 1, -1, 0).
Proof.
  destruct (un_sorteo_por_intento binary64 grilla_ej (1, 0) 10%float pendiente_ej
              rnd_ej 7%nat) as (s & E & Hn & Hi & _); [by vm_compute..|].
  exists s. split; [done|].
  assert (length (intentos s) = 5%nat ∧
          ∃ t, intentos s !! 1%nat = Some t ∧
               (t_y t, t_x t, t_dy t, t_dx t) = (1, 1, -1, 0)) as [Hl (t & Et & Ek)].
  { clear Hn Hi. vm_compute in E. injection E as <-. split; [done|]. by eexists. }
  clear E. split; [lia|]. exists t. split_and!; [done| |done]. by apply Hi.
Defined.

(** ** More on the fuel locator *)

Lemma primero_Some {A R} (h : A → option R) l v :
  primero h l = Some v →
  ∃ i a, l !! i = Some a ∧ h a = Some v ∧
         ∀ j b, (j < i)%nat → l !! j = Some b → h b = None.
Proof.
  induction l as [|c l IH]; simpl; [done|].
  destruct (h c) as [w|] eqn:Ec.
  - intros [= ->]. exists 0%nat, c. split_and!; [done..|]. intros j b Hj. lia.
  - intros (i & a & Hi & Ha & Hpre)%IH. exists (S i), a. split_and!; [done..|].
    intros [|j] b Hj Hb; simpl in Hb; [by injection Hb as <-|].
    apply (Hpre j); [lia|done].
Qed.

Lemma elem_of_anillo cx cy r nx ny :
  (nx, ny) ∈ (cuadrado r ≫= λ d, [(cx + d.1, cy + d.2)]) ↔
  chebyshev cx cy nx ny ≤ r.
Proof.
  unfold chebyshev. rewrite list_elem_of_bind. split.
  - intros ([dx dy] & [= -> ->]%list_elem_of_singleton & Hd%elem_of_cuadrado).
    simpl. lia.
  - intros Hc. exists (nx - cx, ny - cy). split.
    + apply list_elem_of_singleton. simpl. f_equal; lia.
    + apply elem_of_cuadrado. lia.
Qed.

(** The radius at which a search succeeds: the found cell lies in that
    square and the smaller squares hold no in-bounds fuel. *)
Lemma buscar_vecino_ref_anillo grilla cx cy radio nx ny :
  buscar_vecino_ref grilla cx cy radio = Some (nx, ny) →
  ∃ r, 1 ≤ r ≤ radio ∧ chebyshev cx cy nx ny ≤ r ∧
       es_vegetacion grilla (nx, ny) = true ∧
       ∀ qx qy, Z.max 1 (chebyshev cx cy qx qy) < r →
                es_vegetacion grilla (qx, qy) = false.
Proof.
  unfold buscar_vecino_ref, recorrido.
  rewrite find_primero, primero_bind.
  intros (i & r & Hi & Hr & Hpre)%primero_Some.
  apply lookup_seqZ in Hi as [-> Hi].
  rewrite <- find_primero in Hr.
  pose proof (find_Some_first _ _ _ Hr) as (pre & suf & El & Hes & _).
  exists (1 + Z.of_nat i). split_and!; [lia|lia| |done|].
  - apply elem_of_anillo. rewrite El. apply elem_of_app. right. apply list_elem_of_here.
  - intros qx qy Hq.
    assert (∃ j, (j < i)%nat ∧ Z.max 1 (chebyshev cx cy qx qy) = 1 + Z.of_nat j)
      as (j & Hj & Ej).
    { exists (Z.to_nat (Z.max 1 (chebyshev cx cy qx qy) - 1)). lia. }
    specialize (Hpre j (1 + Z.of_nat j) Hj).
    rewrite lookup_seqZ_lt in Hpre by lia. specialize (Hpre eq_refl).
    rewrite <- find_primero in Hpre.
    apply (proj1 (find_None_iff _ _) Hpre (qx, qy)).
    apply elem_of_anillo. lia.
Qed.

(** X5: the cell the locator returns lies within the maximum radius, and
    no in-bounds fuel cell lies in a smaller scanned square: counting the
    target itself as belonging to the square of radius 1, the returned cell
    is a nearest fuel cell in Chebyshev distance; when the target holds no
    fuel it is a nearest one outright. *)
Theorem buscar_vecino_mas_cercano grilla cx cy radio nx ny :
  wf grilla →
  buscar_vecino grilla cx cy radio = Some (Some (nx, ny)) →
  chebyshev cx cy nx ny ≤ radio ∧
  (∀ qx qy, inb grilla qy qx → getitem grilla qy qx = Some VEGETACION →
     Z.max 1 (chebyshev cx cy nx ny) ≤ Z.max 1 (chebyshev cx cy qx qy)) ∧
  (¬ (inb grilla cy cx ∧ getitem grilla cy cx = Some VEGETACION) →
   (nx, ny) ≠ (cx, cy) ∧
   ∀ qx qy, inb grilla qy qx → getitem grilla qy qx = Some VEGETACION →
     chebyshev cx cy nx ny ≤ chebyshev cx cy qx qy).
Proof.
  intros Hwf E. rewrite buscar_vecino_ref_eq in E by done. injection E as E.
  apply buscar_vecino_ref_anillo in E as (r & Hr & Hc & Hes & Hmenor).
  assert (∀ qx qy, inb grilla qy qx → getitem grilla qy qx = Some VEGETACION →
                   Z.max 1 (chebyshev cx cy nx ny) ≤ Z.max 1 (chebyshev cx cy qx qy))
    as Hanillo.
  { intros qx qy Hin Hv.
    destruct (decide (Z.max 1 (chebyshev cx cy qx qy) < r)) as [Hlt|]; [|lia].
    assert (es_vegetacion grilla (qx, qy) = false) as Hf by by apply Hmenor.
    assert (es_vegetacion grilla (qx, qy) = true) as Ht by by apply es_vegetacion_true.
    congruence. }
  split_and!; [lia|done|].
  intros Hno.
  assert (∀ qx qy, inb grilla qy qx → getitem grilla qy qx = Some VEGETACION →
                   1 ≤ chebyshev cx cy qx qy) as Hlejos.
  { intros qx qy Hin Hv. unfold chebyshev.
    destruct (decide (qx = cx ∧ qy = cy)) as [[-> ->]|]; [by destruct Hno|lia]. }
  apply es_vegetacion_true in Hes as [Hin Hv]. split.
  - intros [= -> ->]. by destruct Hno.
  - intros qx qy Hinq Hvq.
    pose proof (Hanillo qx qy Hinq Hvq). pose proof (Hlejos qx qy Hinq Hvq).
    pose proof (Hlejos nx ny Hin Hv). lia.
Qed.

Lemma buscar_vecino_mas_cercano_ej :
  buscar_vecino grilla_borde 2 2 radio_por_defecto = Some (Some (4, 0)) ∧
  ∀ qx qy, inb grilla_borde qy qx → getitem grilla_borde qy qx = Some VEGETACION →
           2 ≤ chebyshev 2 2 qx qy.
Proof.
  split; [by vm_compute|].
  destruct (buscar_vecino_mas_cercano grilla_borde 2 2 radio_por_defecto 4 0)
    as (_ & _ & H); [by vm_compute..|].
  destruct H as [_ H]; [|done]. intros [_ Hv]. by vm_compute in Hv.
Defined.

(** ** The ignition block *)

Lemma solo_cambia_upd g y x v : wf g → inb g y x → solo_cambia g (upd g y x v) y x v.
Proof.
  intros Hwf Hin. split_and!; [by apply wf_upd|done|by apply getitem_upd_eq|].
  intros y' x' Hin' Hne. apply getitem_upd_ne; [done..|]. congruence.
Qed.

Lemma norm_index_envuelto i n :
  - n ≤ i < n → norm_index i n = Some (envuelto i n) ∧ 0 ≤ envuelto i n < n.
Proof.
  intros H. unfold norm_index, envuelto.
  set (j := if i <? 0 then i + n else i).
  assert (0 ≤ j < n) as Hj by (unfold j; destruct (Z.ltb_spec i 0); lia).
  split; [|done].
  destruct (Z.leb_spec 0 j); [|lia]. by destruct (Z.ltb_spec j n); [|lia].
Qed.

Lemma norm_index_fuera i n : i < - n ∨ n ≤ i → norm_index i n = None.
Proof.
  intros H. unfold norm_index.
  destruct (Z.ltb_spec i 0).
  - destruct (Z.leb_spec 0 (i + n)); [|done]. by destruct (Z.ltb_spec (i + n) n); [lia|].
  - destruct (Z.leb_spec 0 i); [|done]. by destruct (Z.ltb_spec i n); [lia|].
Qed.

(** An index within [[-n, n)] on each axis addresses the cell it wraps to. *)
Lemma getitem_envuelto {A} (a : ndarray A) y x :
  - shape0 a ≤ y < shape0 a → - shape1 a ≤ x < shape1 a →
  inb a (envuelto y (shape0 a)) (envuelto x (shape1 a)) ∧
  getitem a y x = getitem a (envuelto y (shape0 a)) (envuelto x (shape1 a)) ∧
  ∀ v, setitem a y x v = setitem a (envuelto y (shape0 a)) (envuelto x (shape1 a)) v.
Proof.
  intros Hy Hx.
  destruct (norm_index_envuelto y _ Hy) as [Ey Hy'].
  destruct (norm_index_envuelto x _ Hx) as [Ex Hx'].
  assert (offset a y x = offset a (envuelto y (shape0 a)) (envuelto x (shape1 a))) as Eo.
  { unfold offset. rewrite Ey, Ex. simpl.
    by rewrite (norm_index_inb (envuelto y _)), (norm_index_inb (envuelto x _)). }
  split_and!; [done| |]; [unfold getitem|intros v; unfold setitem]; by rewrite Eo.
Qed.

(** The block lights one fuel cell or leaves the grid alone. *)
Lemma encender_forma grilla cx cy :
  wf grilla → inb grilla cy cx →
  encender grilla cx cy = Some grilla ∨
  ∃ ny nx, inb grilla ny nx ∧ getitem grilla ny nx = Some VEGETACION ∧
           encender grilla cx cy = Some (upd grilla ny nx FUEGO).
Proof.
  intros Hwf Hin. unfold encender.
  destruct (getitem_inb grilla cy cx Hwf Hin) as [c Hc]. rewrite Hc. simpl.
  destruct (Z.eqb_spec c VEGETACION) as [->|Hne].
  - right. exists cy, cx. split_and!; [done..|]. by apply setitem_inb.
  - rewrite buscar_vecino_ref_eq by done. simpl.
    destruct (buscar_vecino_ref grilla cx cy 3) as [[nx ny]|] eqn:Eb; [|by left].
    right. unfold buscar_vecino_ref in Eb.
    apply find_Some_first in Eb as (_ & _ & _ & [Hi Hv]%es_vegetacion_true & _).
    exists ny, nx. split_and!; [done..|]. by apply setitem_inb.
Qed.

(** X6: for a start point inside the grid the ignition block lights
    exactly one cell or none: the start cell when it holds fuel; otherwise
    a fuel cell nearest to it in Chebyshev distance, never farther than 3
    and never the start cell; and when no fuel lies within distance 3 the
    grid is left as it is. *)
Theorem encender_enciende_una_celda grilla cx cy :
  wf grilla → inb grilla cy cx →
  ∃ g, encender grilla cx cy = Some g ∧
    ((getitem grilla cy cx = Some VEGETACION ∧ solo_cambia grilla g cy cx FUEGO) ∨
     (getitem grilla cy cx ≠ Some VEGETACION ∧ sin_vegetacion grilla cx cy 3 ∧
      g = grilla) ∨
     (getitem grilla cy cx ≠ Some VEGETACION ∧
      ∃ nx ny, (nx, ny) ≠ (cx, cy) ∧ inb grilla ny nx ∧
               getitem grilla ny nx = Some VEGETACION ∧
               chebyshev cx cy nx ny ≤ 3 ∧
               (∀ qx qy, inb grilla qy qx → getitem grilla qy qx = Some VEGETACION →
                         chebyshev cx cy nx ny ≤ chebyshev cx cy qx qy) ∧
               solo_cambia grilla g ny nx FUEGO)).
Proof.
  intros Hwf Hin. unfold encender.
  destruct (getitem_inb grilla cy cx Hwf Hin) as [c Hc]. rewrite Hc. simpl.
  destruct (Z.eqb_spec c VEGETACION) as [->|Hne].
  { rewrite setitem_inb by done. eexists. split; [done|]. left.
    split; [done|]. by apply solo_cambia_upd. }
  assert (Some c ≠ Some VEGETACION) as Hno by congruence.
  rewrite buscar_vecino_ref_eq by done. simpl.
  destruct (buscar_vecino_ref grilla cx cy 3) as [[nx ny]|] eqn:Eb.
  - apply buscar_vecino_ref_anillo in Eb
      as (r & Hr & Hcheb & [Hi Hv]%es_vegetacion_true & Hmenor).
    rewrite setitem_inb by done. eexists. split; [done|]. right; right.
    split; [done|]. exists nx, ny.
    assert (∀ qx qy, inb grilla qy qx → getitem grilla qy qx = Some VEGETACION →
                     1 ≤ chebyshev cx cy qx qy) as Hlejos.
    { intros qx qy Hiq Hvq. unfold chebyshev.
      destruct (decide (qx = cx ∧ qy = cy)) as [[-> ->]|]; [congruence|lia]. }
    split_and!; [|done|done|lia| |by apply solo_cambia_upd].
    + intros [= -> ->]. congruence.
    + intros qx qy Hiq Hvq. pose proof (Hlejos qx qy Hiq Hvq).
      destruct (decide (Z.max 1 (chebyshev cx cy qx qy) < r)) as [Hlt|]; [|lia].
      assert (es_vegetacion grilla (qx, qy) = true) as Ht by by apply es_vegetacion_true.
      rewrite Hmenor in Ht by done. done.
  - apply buscar_vecino_ref_None in Eb as [?|Hsin]; [lia|].
    eexists. split; [done|]. right; left. done.
Qed.

Lemma encender_enciende_una_celda_ej :
  ∃ g, encender grilla_borde 1 2 = Some g ∧
       getitem g 0 4 = Some FUEGO ∧ getitem g 2 4 = Some VEGETACION.
Proof.
  destruct (encender_enciende_una_celda grilla_borde 1 2) as (g & E & _);
    [by vm_compute..|].
  exists g. split; [done|]. vm_compute in E. injection E as <-. by vm_compute.
Defined.

(** X7: the ignition block indexes the grid with the start point as it
    comes.  A start point outside [[-H, H)] by [[-W, W)] raises
    [IndexError]; a negative one inside that range addresses the cell it
    wraps around to, so when that cell holds fuel the fire starts there, at
    the opposite edge of the grid. *)
Theorem encender_indices_sin_guarda grilla cx cy :
  wf grilla →
  ((cy < - shape0 grilla ∨ shape0 grilla ≤ cy ∨
    cx < - shape1 grilla ∨ shape1 grilla ≤ cx) →
   encender grilla cx cy = None) ∧
  (- shape0 grilla ≤ cy < shape0 grilla → - shape1 grilla ≤ cx < shape1 grilla →
   getitem grilla (envuelto cy (shape0 grilla)) (envuelto cx (shape1 grilla))
     = Some VEGETACION →
   ∃ g, encender grilla cx cy = Some g ∧
        solo_cambia grilla g (envuelto cy (shape0 grilla)) (envuelto cx (shape1 grilla))
          FUEGO).
Proof.
  intros Hwf. split.
  - intros H. unfold encender, getitem, offset.
    destruct (decide (cy < - shape0 grilla ∨ shape0 grilla ≤ cy)) as [Hy|Hy].
    + by rewrite (norm_index_fuera cy).
    + destruct (norm_index cy (shape0 grilla)); [simpl|done].
      by rewrite (norm_index_fuera cx) by lia.
  - intros Hy Hx Hv.
    destruct (getitem_envuelto grilla cy cx Hy Hx) as (Hin & Eg & Es).
    unfold encender. rewrite Eg, Hv. simpl. rewrite Es, setitem_inb by done.
    eexists. split; [done|]. by apply solo_cambia_upd.
Qed.

Lemma encender_indices_sin_guarda_ej :
  encender grilla_borde 5 2 = None ∧
  ∃ g, encender grilla_borde (-1) 2 = Some g ∧ getitem g 2 4 = Some FUEGO.
Proof.
  destruct (encender_indices_sin_guarda grilla_borde 5 2) as [H1 _]; [by vm_compute|].
  destruct (encender_indices_sin_guarda grilla_borde (-1) 2) as [_ H2]; [by vm_compute|].
  split.
  - apply H1. simpl. lia.
  - destruct H2 as (g & E & _ & _ & Hf & _); [simpl; lia|simpl; lia|by vm_compute|].
    exists g. split; [done|]. exact Hf.
Defined.

(** ** The hourly loop *)

Lemma encender_marco grilla cx cy :
  wf grilla → inb grilla cy cx →
  ∃ g, encender grilla cx cy = Some g ∧ wf g ∧ same_shape g grilla ∧
       ∀ y x, inb grilla y x →
         getitem g y x = getitem grilla y x ∨
         (getitem grilla y x = Some VEGETACION ∧ getitem g y x = Some FUEGO).
Proof.
  intros Hwf Hin.
  destruct (encender_forma grilla cx cy Hwf Hin) as [E|(ny & nx & Hi & Hv & E)].
  - exists grilla. split_and!; [done..|]. intros y x _. by left.
  - exists (upd grilla ny nx FUEGO). split_and!; [done|by apply wf_upd|done|].
    intros y x Hyx. destruct (decide ((ny, nx) = (y, x))) as [[= <- <-]|Hne].
    + right. split; [done|]. by apply getitem_upd_eq.
    + left. by apply getitem_upd_ne.
Qed.

Lemma alcanza_trans a b c : alcanza a b → alcanza b c → alcanza a c.
Proof. unfold alcanza, VEGETACION, FUEGO, QUEMADO. lia. Qed.

Lemma same_shape_inb {A B} (a : ndarray A) (b : ndarray B) y x :
  same_shape a b → inb a y x ↔ inb b y x.
Proof. intros [E0 E1]. unfold inb. by rewrite E0, E1. Qed.

(** One turn of the loop moves every cell forward or not at all. *)
Lemma hora_avanza ar grilla inicio viento velocidad pendiente rnd k :
  wf grilla → wf pendiente → same_shape grilla pendiente →
  (∀ cx cy, inicio = Some (cx, cy) → inb grilla cy cx) →
  ∃ s, hora ar grilla inicio viento velocidad pendiente rnd k = Some s ∧
       wf (nueva s) ∧ same_shape (nueva s) grilla ∧ (k ≤ sacados s)%nat ∧
       ∀ y x, inb grilla y x →
         ∃ a b, getitem grilla y x = Some a ∧ getitem (nueva s) y x = Some b ∧
                alcanza a b.
Proof.
  intros Hwf Hwfp Hsh Hini.
  assert (∃ g, match inicio with
               | Some (cx, cy) => encender grilla cx cy
               | None => Some grilla
               end = Some g ∧ wf g ∧ same_shape g grilla ∧
               ∀ y x, inb grilla y x →
                 getitem g y x = getitem grilla y x ∨
                 (getitem grilla y x = Some VEGETACION ∧ getitem g y x = Some FUEGO))
    as (g & Eg & Hwg & Hsg & Hg).
  { destruct inicio as [[cx cy]|].
    - apply encender_marco; [done|]. by apply Hini.
    - exists grilla. split_and!; [done..|]. intros y x _. by left. }
  assert (same_shape g pendiente) as Hsgp.
  { destruct Hsg as [E0 E1], Hsh as [F0 F1]. split; congruence. }
  destruct (paso_transiciones ar g viento velocidad pendiente rnd k Hwg Hwfp Hsgp)
    as (s & E & Hws & Hss & Ht).
  exists s. unfold hora. rewrite Eg. simpl. split_and!; [done|done| | |].
  - destruct Hss as [E0 E1], Hsg as [F0 F1]. split; congruence.
  - apply paso_contado in E as [-> _]. lia.
  - intros y x Hin.
    destruct (Ht y x (proj2 (same_shape_inb g grilla y x Hsg) Hin))
      as (a1 & b & Ha1 & Hb & Htr).
    destruct (getitem_inb grilla y x Hwf Hin) as [a Ha].
    exists a, b. split_and!; [done..|].
    assert (a1 = a ∨ (a = VEGETACION ∧ a1 = FUEGO)) as Hpre.
    { destruct (Hg y x Hin) as [Hs|[Hv Hf]];
        [left; congruence|right; split; congruence]. }
    unfold alcanza. clear -Hpre Htr. unfold VEGETACION, FUEGO, QUEMADO in *. lia.
Qed.

(** X8: within one turn of the loop, the cell the ignition block lights,
    be it the start cell or the fuel cell the locator found for it, is
    burned, not burning, after that turn's step; if nothing burned before,
    every cell burning at the end of the turn is a Moore neighbour of the
    lit cell; and if the block lit nothing and nothing burned before, the
    turn leaves the grid as it was. *)
Theorem hora_quema_la_celda_encendida ar grilla cx cy viento velocidad
    (pendiente : ndarray (elem ar)) rnd k :
  wf grilla → wf pendiente → same_shape grilla pendiente →
  inb grilla cy cx →
  ∃ g s, encender grilla cx cy = Some g ∧
         hora ar grilla (Some (cx, cy)) viento velocidad pendiente rnd k = Some s ∧
         (∀ ly lx, inb grilla ly lx →
            getitem grilla ly lx = Some VEGETACION → getitem g ly lx = Some FUEGO →
            getitem (nueva s) ly lx = Some QUEMADO ∧
            ((∀ y x, inb grilla y x → getitem grilla y x ≠ Some FUEGO) →
             ∀ y x, inb grilla y x → getitem (nueva s) y x = Some FUEGO →
                    chebyshev lx ly x y = 1)) ∧
         (g = grilla →
          (∀ y x, inb grilla y x → getitem grilla y x ≠ Some FUEGO) →
          nueva s = grilla).
Proof.
  intros Hwf Hwfp Hsh Hin.
  destruct (encender_forma grilla cx cy Hwf Hin) as [Eg|(ny & nx & Hi & Hv & Eg)].
  - destruct (paso_resumen ar grilla viento velocidad pendiente rnd k Hwf Hwfp Hsh)
      as (s & E & _).
    exists grilla, s. unfold hora. rewrite Eg. simpl. split_and!; [done|done| |].
    + intros ly lx _ Hveg Hfu. rewrite Hveg in Hfu. estados.
    + intros _ Hno. rewrite paso_sin_celdas_en_fuego in E by done.
      by injection E as <-.
  - set (g := upd grilla ny nx FUEGO) in *.
    assert (wf g) as Hwg by by apply wf_upd.
    destruct (paso_resumen ar g viento velocidad pendiente rnd k Hwg Hwfp Hsh)
      as (s & E & _ & Hb & He & Hh).
    assert (getitem g ny nx = Some FUEGO) as Hgf by by apply getitem_upd_eq.
    exists g, s. unfold hora. rewrite Eg. simpl. split_and!; [done|done| |].
    + intros ly lx Hl Hveg Hfu.
      assert ((ny, nx) = (ly, lx)) as [= <- <-].
      { destruct (decide ((ny, nx) = (ly, lx))) as [|Hne]; [done|].
        unfold g in Hfu. rewrite getitem_upd_ne in Hfu by done.
        rewrite Hveg in Hfu. estados. }
      split; [by destruct (Hh ny nx Hi Hgf)|].
      intros Hno y x Hyx Hfuego.
      destruct (proj2 He y x Hyx) as [Hs|[[_ Hq]|(_ & _ & t & Ht & [= <- <-] & _)]];
        simpl in *.
      * rewrite Hfuego in Hs. symmetry in Hs.
        destruct (Hh y x Hyx Hs) as [Hq _]. estados.
      * estados.
      * destruct Hb as (_ & _ & _ & Hval & _). rewrite Forall_forall in Hval.
        pose proof (valido_offset _ _ _ _ _ _ _ (Hval t Ht)) as Hoff.
        destruct (Hval t Ht) as (Hit & Hft & Hdy & Hdx & _).
        assert ((ny, nx) = (t_y t, t_x t)) as [= -> ->].
        { destruct (decide ((ny, nx) = (t_y t, t_x t))) as [|Hne]; [done|].
          unfold g in Hft. rewrite getitem_upd_ne in Hft by done.
          by destruct (Hno _ _ Hit). }
        unfold chebyshev. rewrite !elem_of_cons, elem_of_nil in Hdy, Hdx.
        assert (t_dy t ≠ 0 ∨ t_dx t ≠ 0) as Hnz.
        { destruct (decide (t_dy t = 0)) as [Ey|]; [|by left].
          right. intros Ex. apply Hoff. by rewrite Ey, Ex. }
        lia.
    + intros Egg. rewrite Egg in Hgf. rewrite Hv in Hgf. estados.
Qed.

Lemma hora_quema_la_celda_encendida_ej :
  ∃ s, hora binary64 grilla_borde (Some (1, 2)) (1, 0) 10 pendiente_5x5 rnd_ej 0
       = Some s ∧
       getitem grilla_borde 2 1 = Some VACIO ∧
       getitem (nueva s) 0 4 = Some QUEMADO.
Proof.
  destruct (hora_quema_la_celda_encendida binary64 grilla_borde 1 2 (1, 0) 10%float
              pendiente_5x5 rnd_ej 0%nat) as (g & s & Eg & Eh & Hlit & _);
    [by vm_compute..|].
  exists s. split; [done|]. clear Eh. split; [calcula|].
  apply (Hlit 0 4); [en_grilla|calcula|].
  clear Hlit. vm_compute in Eg. injection Eg as <-. calcula.
Defined.

(** X9: over any number of hours, with start points inside the grid, the
    loop runs without an [IndexError], keeps the shape of the grid, never
    gives draws back, and moves each cell only forward along fuel, burning,
    burned: an empty cell stays empty, a burned cell stays burned, and no
    cell becomes fuel. *)
Theorem simulacion_solo_avanza ar horas
    (pendiente : ndarray (elem ar)) rnd grilla k :
  wf grilla → wf pendiente → same_shape grilla pendiente →
  Forall (λ h, ∀ cx cy, h.1.1 = Some (cx, cy) → inb grilla cy cx) horas →
  ∃ g k', simulacion ar horas pendiente rnd grilla k = Some (g, k') ∧
          wf g ∧ same_shape g grilla ∧ (k ≤ k')%nat ∧
          ∀ y x, inb grilla y x →
            ∃ a b, getitem grilla y x = Some a ∧ getitem g y x = Some b ∧
                   alcanza a b ∧
                   (a = VACIO → b = VACIO) ∧ (a = QUEMADO → b = QUEMADO) ∧
                   (b = VEGETACION → a = VEGETACION).
Proof.
  intros Hwf Hwfp Hsh Hall.
  assert (∃ g k', simulacion ar horas pendiente rnd grilla k = Some (g, k') ∧
                  wf g ∧ same_shape g grilla ∧ (k ≤ k')%nat ∧
                  ∀ y x, inb grilla y x →
                    ∃ a b, getitem grilla y x = Some a ∧ getitem g y x = Some b ∧
                           alcanza a b) as (g & k' & E & Hwg & Hsg & Hk & Hcel).
  { revert grilla k Hwf Hsh Hall.
    induction horas as [|[[inicio viento] velocidad] horas IH];
      intros grilla k Hwf Hsh Hall.
    - exists grilla, k. split_and!; [done..|]. intros y x Hin.
      destruct (getitem_inb grilla y x Hwf Hin) as [a Ha].
      exists a, a. split_and!; [done..|]. by left.
    - apply Forall_cons in Hall as [Hini Hall]. simpl in Hini.
      destruct (hora_avanza ar grilla inicio viento velocidad pendiente rnd k
                  Hwf Hwfp Hsh Hini) as (s & Es & Hws & Hss & Hks & Hts).
      assert (same_shape (nueva s) pendiente) as Hsp.
      { destruct Hss as [E0 E1], Hsh as [F0 F1]. split; congruence. }
      destruct (IH (nueva s) (sacados s) Hws Hsp) as (g & k' & E & Hwg & Hsg & Hk & Hcel).
      { eapply Forall_impl; [exact Hall|]. intros h Hh cx cy Eh.
        by apply (same_shape_inb (nueva s) grilla), Hh. }
      exists g, k'. simpl. rewrite Es. simpl. split_and!; [done|done| |lia|].
      + destruct Hsg as [E0 E1], Hss as [F0 F1]. split; congruence.
      + intros y x Hin. destruct (Hts y x Hin) as (a & b & Ha & Hb & Hab).
        destruct (Hcel y x (proj2 (same_shape_inb (nueva s) grilla y x Hss) Hin))
          as (b' & c & Hb' & Hc & Hbc).
        exists a, c. split_and!; [done..|].
        apply (alcanza_trans a b c); [done|]. congruence. }
  exists g, k'. split_and!; [done..|]. intros y x Hin.
  destruct (Hcel y x Hin) as (a & b & Ha & Hb & Hab).
  exists a, b. split_and!; [done..| | |];
    clear -Hab; unfold alcanza, VACIO, VEGETACION, FUEGO, QUEMADO in *; lia.
Qed.

Lemma simulacion_solo_avanza_ej :
  ∃ g k', simulacion binary64 [(Some (1, 0), (1, 0), 10%float); (None, (0, 1), 20%float);
                      (Some (2, 2), (-1, 0), 5%float)]
            pendiente_ej rnd_ej grilla_verde 0 = Some (g, k') ∧
          getitem g 0 2 = Some VACIO.
Proof.
  assert (Forall (λ h : option (Z * Z) * (Z * Z) * float,
                    ∀ cx cy, h.1.1 = Some (cx, cy) → inb grilla_verde cy cx)
            [(Some (1, 0), (1, 0), 10%float); (None, (0, 1), 20%float);
             (Some (2, 2), (-1, 0), 5%float)]) as Hall.
  { repeat (apply Forall_cons; split;
            [simpl; intros cx cy Eh; first [discriminate Eh|injection Eh as <- <-; en_grilla]|]).
    constructor. }
  assert (inb grilla_verde 0 2) as Hin by en_grilla.
  assert (getitem grilla_verde 0 2 = Some VACIO) as Hv by calcula.
  destruct (simulacion_solo_avanza binary64 _ pendiente_ej rnd_ej grilla_verde 0%nat
              ltac:(unfold wf; simpl; lia) ltac:(unfold wf; simpl; lia)
              ltac:(split; reflexivity) Hall)
    as (g & k' & E & _ & _ & _ & H).
  exists g, k'. split; [exact E|]. clear E.
  destruct (H 0 2 Hin) as (a & b & Ha & Hb & _ & Hva & _).
  rewrite Hb. f_equal. apply Hva. rewrite Hv in Ha. by injection Ha as <-.
Defined.

(** ** The initial grid *)

(** X10: from a vegetation mask of the grid's shape, [generar_grilla]
    builds a grid of that shape holding fuel exactly where the mask is 1
    and empty cells elsewhere, with a mask of another shape it raises; the
    grid it builds has no fire, so the propagation step returns it
    unchanged until a cell is lit. *)
Theorem generar_grilla_sin_fuego vegetacion grid_size :
  wf vegetacion →
  ((shape0 vegetacion ≠ grid_size ∨ shape1 vegetacion ≠ grid_size) →
   generar_grilla vegetacion grid_size = None) ∧
  (shape0 vegetacion = grid_size → shape1 vegetacion = grid_size →
   ∃ g, generar_grilla vegetacion grid_size = Some g ∧
        wf g ∧ same_shape g vegetacion ∧
        (∀ y x, inb g y x →
           ∃ m, getitem vegetacion y x = Some m ∧
                getitem g y x = Some (if m =? 1 then VEGETACION else VACIO)) ∧
        ∀ ar viento velocidad pendiente rnd k,
          actualizar ar g viento velocidad pendiente rnd k = Some g).
Proof.
  intros (H0 & H1 & Hl). split.
  - intros Hne. unfold generar_grilla, asignar_donde.
    destruct (grid_size <? 0); [done|]. simpl. case_decide as Hd; [|done].
    destruct Hd. lia.
  - intros E0 E1. unfold generar_grilla, asignar_donde.
    destruct (Z.ltb_spec grid_size 0); [lia|]. simpl.
    case_decide as Hd; [|by destruct Hd]. clear Hd.
    set (g := NdArray grid_size grid_size _).
    assert (wf g) as Hwg.
    { unfold wf, g. simpl.
      rewrite length_zip_with, length_replicate, length_fmap. nia. }
    assert (∀ y x, inb g y x →
              ∃ m, getitem vegetacion y x = Some m ∧
                   getitem g y x = Some (if m =? 1 then VEGETACION else VACIO))
      as Hcel.
    { intros y x Hin.
      assert (inb vegetacion y x) as Hinv by (unfold inb in *; simpl in *; lia).
      destruct (getitem_inb vegetacion y x (conj H0 (conj H1 Hl)) Hinv) as [m Hm].
      exists m. split; [done|]. revert Hm. unfold getitem.
      rewrite !offset_inb by done. simpl. rewrite E1. intros Hm.
      rewrite lookup_zip_with, list_lookup_fmap, Hm. simpl.
      rewrite lookup_replicate_2; [done|].
      destruct Hin as [Hy Hx]. simpl in Hy, Hx. nia. }
    exists g. split_and!; [done|done|by split|done|].
    intros ar viento velocidad pendiente rnd k. unfold actualizar.
    rewrite paso_sin_celdas_en_fuego; [done|done|].
    intros y x Hin Hf. destruct (Hcel y x Hin) as (m & _ & Hg).
    rewrite Hg in Hf. destruct (m =? 1); estados.
Qed.

Lemma generar_grilla_sin_fuego_ej :
  generar_grilla mascara_ej 3 = None ∧
  generar_grilla mascara_ej 2 = Some (NdArray 2 2 [1; 0; 0; 1]).
Proof.
  destruct (generar_grilla_sin_fuego mascara_ej 3) as [H1 _];
    [unfold wf; simpl; lia|].
  destruct (generar_grilla_sin_fuego mascara_ej 2) as [_ H2];
    [unfold wf; simpl; lia|].
  split.
  - apply H1. left. simpl. lia.
  - destruct H2 as (g & E & _); [done..|]. rewrite E. f_equal.
    vm_compute in E. by injection E as <-.
Defined.
